(** * accounts/models.py: accounts, memberships and owner designations

    A shallow embedding of the three Django models of [accounts/models.py]
    ([Account], [AccountUser], [AccountOwner]) and of the part of the Django
    ORM their methods call into: primary-key tables, foreign-key and reverse
    one-to-one descriptors, [Model.save], [Model.delete] with cascades, and
    the uniqueness constraints the [Meta] classes and field options declare.

    Methods are computations in a state-and-exception monad over the database
    contents: an exception leaves the database as the last completed write
    left it. *)

From stdpp Require Import gmap strings list fin_maps.
From Stdlib Require Import ZArith Lia.

Local Open Scope Z_scope.

(** ** Exceptions *)

(** The model classes a [DoesNotExist] can belong to. *)
Inductive ModelName := MUser | MAccount | MAccountUser | MAccountOwner.

Inductive Exn :=
  | OwnershipRequired (msg : string)      (* accounts.exceptions *)
  | AccountMismatch                       (* accounts.exceptions *)
  | DoesNotExist (m : ModelName)          (* <Model>.DoesNotExist *)
  | MultipleObjectsReturned (m : ModelName)
  | IntegrityError                        (* django.db *)
  | AssertionError                        (* deleting an unsaved instance *)
  | AttributeError (msg : string).

(** ** Records *)

(** [django.contrib.auth.models.User], the fields this file reads. *)
Record User := mkUser {
  u_id : option Z;
  first_name : string;
  last_name : string
}.

(** [AccountsBase] contributes [created] and [modified] to every model; [id]
    is the automatic primary key, [None] until the first save. *)
Record Account := mkAccount {
  a_id : option Z;
  a_created : option Z;
  a_modified : option Z;
  name : string;
  subdomain : option string;
  domain : option string;
  is_active : bool
}.

Record AccountUser := mkAccountUser {
  au_id : option Z;
  au_created : option Z;
  au_modified : option Z;
  au_user_id : Z;
  au_account_id : Z;
  is_admin : bool
}.

Record AccountOwner := mkAccountOwner {
  ao_id : option Z;
  ao_created : option Z;
  ao_modified : option Z;
  ao_account_id : Z;
  ao_account_user_id : Z
}.

(** The database: one table per model, keyed by primary key. *)
Record Store := mkStore {
  users : gmap Z User;
  accounts : gmap Z Account;
  account_users : gmap Z AccountUser;
  account_owners : gmap Z AccountOwner
}.

Definition empty_store : Store := mkStore ∅ ∅ ∅ ∅.

Definition set_accounts (t : gmap Z Account) (st : Store) : Store :=
  mkStore (users st) t (account_users st) (account_owners st).
Definition set_account_users (t : gmap Z AccountUser) (st : Store) : Store :=
  mkStore (users st) (accounts st) t (account_owners st).
Definition set_account_owners (t : gmap Z AccountOwner) (st : Store) : Store :=
  mkStore (users st) (accounts st) (account_users st) t.
Definition set_users (t : gmap Z User) (st : Store) : Store :=
  mkStore t (accounts st) (account_users st) (account_owners st).

(** ** The monad *)

Definition M (A : Type) : Type := Store → (Exn + A) * Store.

Definition ret {A} (x : A) : M A := λ st, (inr x, st).
Definition raise {A} (e : Exn) : M A := λ st, (inl e, st).
Definition bind {A B} (m : M A) (k : A → M B) : M B :=
  λ st, match m st with
        | (inl e, st') => (inl e, st')
        | (inr x, st') => k x st'
        end.
Definition get_store : M Store := λ st, (inr st, st).
Definition put_store (st' : Store) : M unit := λ _, (inr tt, st').

#[global] Instance M_ret : MRet M := @ret.
#[global] Instance M_bind : MBind M := λ A B k m, bind m k.

(** ** Primary keys *)

(** The key the database gives a row inserted without one: one more than the
    largest key in the table, and at least 1. *)
Definition next_pk {A} (t : gmap Z A) : Z :=
  1 + map_fold (λ k _ acc, Z.max k acc) 0 t.

(** ** [django.db.models.Model] *)

(** What the ORM knows about a model class: its table, its primary key, the
    [pre_save] hooks of its fields ([add] tells an INSERT from an UPDATE),
    the constraints its columns carry in the database, and the rows a
    deletion cascades to. *)
Class Model (A : Type) := {
  model_name : ModelName;
  pk : A → option Z;
  with_pk : Z → A → A;
  pre_save : bool → Z → A → A;
  table : Store → gmap Z A;
  set_table : gmap Z A → Store → Store;
  violates : Z → A → Store → Prop;
  violates_dec :: ∀ k row st, Decision (violates k row st);
  collect : Z → Store → Store
}.

(** [Model.save]: UPDATE when the instance has a key and the row is there,
    INSERT otherwise (under the instance's key, or a new one). The database
    refuses a row that breaks a constraint; nothing is written then. The
    instance comes back with its key and timestamps set. *)
Definition Model_save `{Model A} (self : A) (now : Z) : M A :=
  st ← get_store;
  let '(k, add) :=
    match pk self with
    | Some k => (k, bool_decide (table st !! k = None))
    | None => (next_pk (table st), true)
    end in
  let row := with_pk k (pre_save add now self) in
  if decide (violates k row st) then raise IntegrityError
  else _ ← put_store (set_table (<[k := row]> (table st)) st); ret row.

(** [Model.delete]: only a saved instance can be deleted; its row goes, and
    so does every row that refers to it, transitively. The cascade does not
    call the [delete] methods of the rows it removes. *)
Definition Model_delete `{Model A} (self : A) : M unit :=
  match pk self with
  | None => raise AssertionError
  | Some k => st ← get_store; put_store (collect k st)
  end.

(** [objects.get(pk=k)], which is also what a forward foreign-key attribute
    does on access. An instance loaded from a row has the row's key. *)
Definition get_by_pk `{Model A} (k : Z) : M A :=
  st ← get_store;
  match table st !! k with
  | Some r => ret (with_pk k r)
  | None => raise (DoesNotExist model_name)
  end.

(** [objects.get] with lookup parameters: exactly one row must match. *)
Definition objects_get `{Model A} (P : A → Prop) `{∀ r, Decision (P r)} : M A :=
  st ← get_store;
  match map_to_list (filter (λ kr, P kr.2) (table st)) with
  | [] => raise (DoesNotExist model_name)
  | [(k, r)] => ret (with_pk k r)
  | _ => raise (MultipleObjectsReturned model_name)
  end.

(** [auto_now_add] and [auto_now] of [AccountsBase]. *)
Definition auto_now_add (add : bool) (now : Z) (old : option Z) : option Z :=
  if add then Some now else old.
Definition auto_now (now : Z) : option Z := Some now.

(** *** Constraints *)

(** [unique=True] on a nullable column: two rows clash when both hold the
    same value; NULLs never clash. The uniqueness the fields and [Meta]
    classes declare is all of the database's checking that is modelled: a
    row is not refused for a NULL in a column that has to be filled, for the
    length of a string or for the size of a key. *)
Definition clash {V} (x y : option V) : Prop := is_Some x ∧ x = y.

Definition Account_violates (k : Z) (row : Account) (st : Store) : Prop :=
  map_Exists (λ j r, j ≠ k ∧
    (clash (subdomain row) (subdomain r) ∨ clash (domain row) (domain r)))
    (accounts st).

(** [unique_together = ('user', 'account')]. A save does not look at the
    rows the foreign keys of the instance name: a membership of a user or an
    account that is not there is stored as it is. *)
Definition AccountUser_violates (k : Z) (row : AccountUser) (st : Store) : Prop :=
  map_Exists (λ j r, j ≠ k ∧
    au_user_id r = au_user_id row ∧ au_account_id r = au_account_id row)
    (account_users st).

(** Each [OneToOneField] is unique. *)
Definition AccountOwner_violates (k : Z) (row : AccountOwner) (st : Store) : Prop :=
  map_Exists (λ j r, j ≠ k ∧
    (ao_account_id r = ao_account_id row ∨
     ao_account_user_id r = ao_account_user_id row))
    (account_owners st).

#[global] Instance clash_dec {V} `{EqDecision V} (x y : option V) :
  Decision (clash x y).
Proof. unfold clash. apply _. Defined.
#[global] Instance Account_violates_dec k row st :
  Decision (Account_violates k row st).
Proof. unfold Account_violates. apply _. Defined.
#[global] Instance AccountUser_violates_dec k row st :
  Decision (AccountUser_violates k row st).
Proof. unfold AccountUser_violates. apply _. Defined.
#[global] Instance AccountOwner_violates_dec k row st :
  Decision (AccountOwner_violates k row st).
Proof. unfold AccountOwner_violates. apply _. Defined.

(** *** Cascades *)

(** A membership goes with its account or its user; an owner record goes
    with its account or its membership. [gone] tells the memberships the
    deletion takes: an owner record stays unless the membership it designates
    is a row, and one of those. *)
Definition owner_survives (gone : AccountUser → bool) (aus : gmap Z AccountUser)
    (kr : Z * AccountOwner) : Prop :=
  gone <$> aus !! ao_account_user_id kr.2 ≠ Some true.

Definition AccountOwner_collect (k : Z) (st : Store) : Store :=
  set_account_owners (delete k (account_owners st)) st.

Definition AccountUser_collect (k : Z) (st : Store) : Store :=
  set_account_owners
    (filter (λ kr, ao_account_user_id kr.2 ≠ k) (account_owners st))
    (set_account_users (delete k (account_users st)) st).

Definition Account_collect (k : Z) (st : Store) : Store :=
  let aus := filter (λ kr, au_account_id kr.2 ≠ k) (account_users st) in
  let aos :=
    filter (λ kr, ao_account_id kr.2 ≠ k ∧
                  owner_survives (λ r, bool_decide (au_account_id r = k))
                                 (account_users st) kr)
           (account_owners st) in
  set_accounts (delete k (accounts st))
    (set_account_users aus (set_account_owners aos st)).

Definition User_collect (k : Z) (st : Store) : Store :=
  let aus := filter (λ kr, au_user_id kr.2 ≠ k) (account_users st) in
  let aos :=
    filter (owner_survives (λ r, bool_decide (au_user_id r = k))
                           (account_users st))
           (account_owners st) in
  set_users (delete k (users st))
    (set_account_users aus (set_account_owners aos st)).

(** *** The four model classes *)

#[global] Instance User_Model : Model User := {|
  model_name := MUser;
  pk := u_id;
  with_pk k u := mkUser (Some k) (first_name u) (last_name u);
  pre_save _ _ u := u;
  table := users;
  set_table := set_users;
  violates _ _ _ := False;
  collect := User_collect
|}.

#[global] Instance Account_Model : Model Account := {|
  model_name := MAccount;
  pk := a_id;
  with_pk k a :=
    mkAccount (Some k) (a_created a) (a_modified a) (name a) (subdomain a)
              (domain a) (is_active a);
  pre_save add now a :=
    mkAccount (a_id a) (auto_now_add add now (a_created a)) (auto_now now)
              (name a) (subdomain a) (domain a) (is_active a);
  table := accounts;
  set_table := set_accounts;
  violates := Account_violates;
  collect := Account_collect
|}.

#[global] Instance AccountUser_Model : Model AccountUser := {|
  model_name := MAccountUser;
  pk := au_id;
  with_pk k r :=
    mkAccountUser (Some k) (au_created r) (au_modified r) (au_user_id r)
                  (au_account_id r) (is_admin r);
  pre_save add now r :=
    mkAccountUser (au_id r) (auto_now_add add now (au_created r)) (auto_now now)
                  (au_user_id r) (au_account_id r) (is_admin r);
  table := account_users;
  set_table := set_account_users;
  violates := AccountUser_violates;
  collect := AccountUser_collect
|}.

#[global] Instance AccountOwner_Model : Model AccountOwner := {|
  model_name := MAccountOwner;
  pk := ao_id;
  with_pk k r :=
    mkAccountOwner (Some k) (ao_created r) (ao_modified r) (ao_account_id r)
                   (ao_account_user_id r);
  pre_save add now r :=
    mkAccountOwner (ao_id r) (auto_now_add add now (ao_created r)) (auto_now now)
                   (ao_account_id r) (ao_account_user_id r);
  table := account_owners;
  set_table := set_account_owners;
  violates := AccountOwner_violates;
  collect := AccountOwner_collect
|}.

(** ** Descriptors *)

(** [ManagerDescriptor.__get__]: a manager is an attribute of the model
    class; reaching for it through an instance is an error. *)
Definition ManagerDescriptor_get {A Mgr} (cls : string) (manager : Mgr)
    (instance : option A) : M Mgr :=
  match instance with
  | Some _ =>
      raise (AttributeError ("Manager isn't accessible via " +:+ cls +:+ " instances"))
  | None => ret manager
  end.

(** [@property] without a setter: reading runs the getter, assigning is an
    error. *)
Record property (A B : Type) := mkProperty {
  fget : A → M B;
  fset : option (A → B → M A)
}.
Arguments mkProperty {A B}.
Arguments fget {A B}.
Arguments fset {A B}.

Definition property_get {A B} (p : property A B) (obj : A) : M B := fget p obj.
Definition property_set {A B} (p : property A B) (obj : A) (v : B) : M A :=
  match fset p with
  | Some f => f obj v
  | None => raise (AttributeError "can't set attribute")
  end.

(** [account_user.user], [account_user.account], [owner.account],
    [owner.account_user]: forward foreign keys. *)
Definition AccountUser_user (self : AccountUser) : M User :=
  get_by_pk (au_user_id self).
Definition AccountUser_account (self : AccountUser) : M Account :=
  get_by_pk (au_account_id self).
Definition AccountOwner_account (self : AccountOwner) : M Account :=
  get_by_pk (ao_account_id self).
Definition AccountOwner_account_user (self : AccountOwner) : M AccountUser :=
  get_by_pk (ao_account_user_id self).

(** [account.owner], the reverse side of [AccountOwner.account]
    ([related_name="owner"]): the owner record whose account is this one. *)
Definition Account_owner (self : Account) : M AccountOwner :=
  objects_get (λ r : AccountOwner, Some (ao_account_id r) = a_id self).

(** [Model.__eq__] and [Model.__ne__]: same primary key. *)
Definition Model_eq `{Model A} (x y : A) : bool := bool_decide (pk x = pk y).
Definition Model_ne `{Model A} (x y : A) : bool := negb (Model_eq x y).

(** ** [Account] *)

(** [save], with the inherited [save] it hands over to as [super_save]. *)
Definition Account_save_via (super_save : Account → Z → M Account)
    (self : Account) (now : Z) : M Account :=
  let self :=
    if decide (subdomain self = Some ""%string)
    then mkAccount (a_id self) (a_created self) (a_modified self) (name self)
                   None (domain self) (is_active self)
    else self in
  let self :=
    if decide (domain self = Some ""%string)
    then mkAccount (a_id self) (a_created self) (a_modified self) (name self)
                   (subdomain self) None (is_active self)
    else self in
  super_save self now.

Definition Account_save : Account → Z → M Account :=
  Account_save_via Model_save.

Section IsMember.
(** [accounts.managers.AccountManager] is defined outside this file. It is
    installed as [objects], the manager of the model, so the attribute
    [objects] of the class is a [ManagerDescriptor]; the manager object and
    whatever its attribute [users] may be are taken as given. *)
Context {Mgr : Type} (AccountManager : Mgr).
Context (Manager_users : Mgr → M (gmap Z AccountUser)).

Definition is_member (self : Account) (user : User) : M bool :=
  objects ← ManagerDescriptor_get "Account" AccountManager (Some self);
  us ← Manager_users objects;
  let qs := filter (λ kr, Some (au_user_id kr.2) = u_id user) us in
  ret (if decide (map_to_list qs = []) then false else true).
End IsMember.

(** ** [AccountUser] *)

(** [delete], with the inherited [delete] as [super_delete]. The [using]
    argument names the database connection; there is one database here. *)
Definition AccountUser_delete_via (super_delete : AccountUser → M unit)
    (self : AccountUser) : M unit :=
  account ← AccountUser_account self;
  owner ← Account_owner account;
  if decide (ao_id owner = au_id self)
  then raise (OwnershipRequired
                "Cannot delete account owner beforeaccount or transferring ownership")
  else super_delete self.

Definition AccountUser_delete : AccountUser → M unit :=
  AccountUser_delete_via Model_delete.

Definition full_name : property AccountUser string :=
  mkProperty
    (λ self, user ← AccountUser_user self;
             ret (first_name user +:+ " " +:+ last_name user))
    None.

(** ** [AccountOwner] *)

(** [save], with the inherited [save] as [super_save]. *)
Definition AccountOwner_save_via (super_save : AccountOwner → Z → M AccountOwner)
    (self : AccountOwner) (now : Z) : M AccountOwner :=
  account_user ← AccountOwner_account_user self;
  membership_account ← AccountUser_account account_user;
  account ← AccountOwner_account self;
  if Model_ne membership_account account then raise AccountMismatch
  else super_save self now.

Definition AccountOwner_save : AccountOwner → Z → M AccountOwner :=
  AccountOwner_save_via Model_save.

(** ** Reachable databases *)

(** The calls a program can make on the models; a model that does not
    override [save] or [delete] inherits [Model]'s. *)
Inductive Op :=
  | OpUserSave (u : User) (now : Z)
  | OpUserDelete (u : User)
  | OpAccountSave (a : Account) (now : Z)
  | OpAccountDelete (a : Account)
  | OpAccountUserSave (r : AccountUser) (now : Z)
  | OpAccountUserDelete (r : AccountUser)
  | OpAccountOwnerSave (r : AccountOwner) (now : Z)
  | OpAccountOwnerDelete (r : AccountOwner).

Definition run (op : Op) (st : Store) : Store :=
  match op with
  | OpUserSave u now => (Model_save u now st).2
  | OpUserDelete u => (Model_delete u st).2
  | OpAccountSave a now => (Account_save a now st).2
  | OpAccountDelete a => (Model_delete a st).2
  | OpAccountUserSave r now => (Model_save r now st).2
  | OpAccountUserDelete r => (AccountUser_delete r st).2
  | OpAccountOwnerSave r now => (AccountOwner_save r now st).2
  | OpAccountOwnerDelete r => (Model_delete r st).2
  end.

Definition run_all (ops : list Op) (st : Store) : Store :=
  foldl (λ st op, run op st) st ops.

Inductive reachable : Store → Prop :=
  | reachable_empty : reachable empty_store
  | reachable_step st op : reachable st → reachable (run op st).

(** ** The invariants the schema declares *)

(** [unique_together = ('user', 'account')]. *)
Definition one_membership_per_pair (st : Store) : Prop :=
  ∀ i j r1 r2,
    account_users st !! i = Some r1 → account_users st !! j = Some r2 →
    au_user_id r1 = au_user_id r2 → au_account_id r1 = au_account_id r2 →
    i = j.

(** [AccountOwner.account] is one-to-one. *)
Definition one_owner_per_account (st : Store) : Prop :=
  ∀ i j r1 r2,
    account_owners st !! i = Some r1 → account_owners st !! j = Some r2 →
    ao_account_id r1 = ao_account_id r2 → i = j.

(** [AccountOwner.account_user] is one-to-one. *)
Definition one_owner_per_membership (st : Store) : Prop :=
  ∀ i j r1 r2,
    account_owners st !! i = Some r1 → account_owners st !! j = Some r2 →
    ao_account_user_id r1 = ao_account_user_id r2 → i = j.

Definition schema_ok (st : Store) : Prop :=
  one_membership_per_pair st ∧ one_owner_per_account st ∧
  one_owner_per_membership st.

(** ** A worked scenario *)

Definition unsaved_account (n : string) (sub dom : option string) : Account :=
  mkAccount None None None n sub dom true.
Definition unsaved_membership (user account : Z) : AccountUser :=
  mkAccountUser None None None user account false.
Definition unsaved_owner (account membership : Z) : AccountOwner :=
  mkAccountOwner None None None account membership.

(** Acme with Jane and John as members and no owner yet. *)
Definition acme_members_ops : list Op :=
  [ OpAccountSave (unsaved_account "Acme" (Some ""%string) None) 100;
    OpUserSave (mkUser None "Jane" "Doe") 101;
    OpUserSave (mkUser None "John" "Roe") 102;
    OpAccountUserSave (unsaved_membership 1 1) 103;
    OpAccountUserSave (unsaved_membership 2 1) 104 ].

Definition acme_members_store : Store := run_all acme_members_ops empty_store.

(** Then John's membership (key 2) is made the owner; the owner record is
    the first of its table and gets key 1. *)
Definition acme_ops : list Op :=
  acme_members_ops ++ [ OpAccountOwnerSave (unsaved_owner 1 2) 105 ].

Definition acme_store : Store := run_all acme_ops empty_store.

Definition acme : Account :=
  mkAccount (Some 1) (Some 100) (Some 100) "Acme" None None true.
(** Acme loaded, with its subdomain blanked in a form. *)
Definition acme_blank : Account :=
  mkAccount (Some 1) (Some 100) (Some 100) "Acme" (Some ""%string) None true.
Definition jane : User := mkUser (Some 1) "Jane" "Doe".
Definition jane_membership : AccountUser :=
  mkAccountUser (Some 1) (Some 103) (Some 103) 1 1 false.
Definition john_membership : AccountUser :=
  mkAccountUser (Some 2) (Some 104) (Some 104) 2 1 false.
Definition acme_owner : AccountOwner :=
  mkAccountOwner (Some 1) (Some 105) (Some 105) 1 2.

(** Two accounts, Jane a member of the second one only. *)
Definition two_accounts_ops : list Op :=
  [ OpAccountSave (unsaved_account "A" None None) 100;
    OpAccountSave (unsaved_account "B" None None) 101;
    OpUserSave (mkUser None "Jane" "Doe") 102;
    OpAccountUserSave (unsaved_membership 1 2) 103 ].

Definition two_accounts_store : Store := run_all two_accounts_ops empty_store.

(** ** Display names and URLs *)

Section Unicode.
(** [User.__unicode__] belongs to [django.contrib.auth] and is taken as
    given. *)
Context (User_unicode : User → string).

Definition Account_unicode (self : Account) : M string := ret (name self).

Definition AccountUser_unicode (self : AccountUser) : M string :=
  user ← AccountUser_user self;
  ret (User_unicode user).

(** The two attributes are read, in this order, before either is
    formatted. *)
Definition AccountOwner_unicode (self : AccountOwner) : M string :=
  account ← AccountOwner_account self;
  account_user ← AccountOwner_account_user self;
  left_part ← Account_unicode account;
  right_part ← AccountUser_unicode account_user;
  ret (left_part +:+ ": " +:+ right_part).
End Unicode.

Section Permalink.
(** [django.core.urlresolvers.reverse] resolves a view name, positional
    arguments and keyword arguments against the URL configuration of the
    project, which is not part of this file. *)
Context (reverse : string → list Z → gmap string (option Z) → M string).

(** [@permalink]: the method computes the arguments, [reverse] makes the
    path. *)
Definition permalink {A}
    (func : A → M (string * list Z * gmap string (option Z))) (self : A) : M string :=
  bits ← func self;
  reverse bits.1.1 bits.1.2 bits.2.

Definition Account_get_absolute_url : Account → M string :=
  permalink (λ self,
    ret ("account_detail"%string, [],
         ({[ "account_pk"%string := a_id self ]} : gmap string (option Z)))).

Definition AccountUser_get_absolute_url : AccountUser → M string :=
  permalink (λ self,
    account ← AccountUser_account self;
    ret ("accountuser_detail"%string, [],
         (<[ "account_pk"%string := a_id account ]>
            {[ "accountuser_pk"%string := au_id self ]}
          : gmap string (option Z)))).
End Permalink.

(** ** What the operations write *)

(** One completed write of an operation: a row put under its key by a save
    the database accepted, or the rows a deletion takes away. *)
Inductive write (st : Store) : Store → Prop :=
  | write_user k u :
      write st (set_users (<[k := with_pk k u]> (users st)) st)
  | write_user_gone k :
      write st (User_collect k st)
  | write_account k row :
      a_id row = Some k → ¬ Account_violates k row st →
      subdomain row ≠ Some ""%string → domain row ≠ Some ""%string →
      write st (set_accounts (<[k := row]> (accounts st)) st)
  | write_account_gone k :
      write st (Account_collect k st)
  | write_membership k row :
      au_id row = Some k → ¬ AccountUser_violates k row st →
      write st (set_account_users (<[k := row]> (account_users st)) st)
  | write_membership_gone k :
      write st (AccountUser_collect k st)
  | write_owner k row :
      ao_id row = Some k → ¬ AccountOwner_violates k row st →
      is_Some (accounts st !! ao_account_id row) →
      is_Some (account_users st !! ao_account_user_id row) →
      write st (set_account_owners (<[k := row]> (account_owners st)) st)
  | write_owner_gone k :
      write st (AccountOwner_collect k st).

(** ** Further invariants *)

(** The account and the membership of every owner record are rows. *)
Definition refs_ok (st : Store) : Prop :=
  ∀ j o, account_owners st !! j = Some o →
    is_Some (accounts st !! ao_account_id o) ∧
    is_Some (account_users st !! ao_account_user_id o).

(** A row holds the key it is stored under. *)
Definition keys_ok (st : Store) : Prop :=
  (∀ k u, users st !! k = Some u → u_id u = Some k) ∧
  (∀ k a, accounts st !! k = Some a → a_id a = Some k) ∧
  (∀ k r, account_users st !! k = Some r → au_id r = Some k) ∧
  (∀ k o, account_owners st !! k = Some o → ao_id o = Some k).

(** [unique=True] on [Account.subdomain] and [Account.domain]. *)
Definition accounts_unique (st : Store) : Prop :=
  ∀ i j a b,
    accounts st !! i = Some a → accounts st !! j = Some b → i ≠ j →
    (is_Some (subdomain a) → subdomain a ≠ subdomain b) ∧
    (is_Some (domain a) → domain a ≠ domain b).

(** No account row holds the empty string for its subdomain or domain. *)
Definition no_blank (st : Store) : Prop :=
  ∀ k a, accounts st !! k = Some a →
    subdomain a ≠ Some ""%string ∧ domain a ≠ Some ""%string.

(** The membership an owner record designates belongs to the account of the
    owner record. *)
Definition owner_consistent (st : Store) : Prop :=
  ∀ j o au,
    account_owners st !! j = Some o →
    account_users st !! ao_account_user_id o = Some au →
    au_account_id au = ao_account_id o.

(** Acme's owner record, then John's membership moved to a second account
    by saving it. *)
Definition moved_membership_ops : list Op :=
  acme_ops ++
  [ OpAccountSave (unsaved_account "Other" None None) 106;
    OpAccountUserSave (mkAccountUser (Some 2) (Some 104) (Some 104) 2 2 false) 107 ].

Definition moved_membership_store : Store :=
  run_all moved_membership_ops empty_store.

(** * Properties *)

(** ** The monad and the ORM *)

Ltac unfold_M :=
  unfold mbind, M_bind, mret, M_ret, bind, ret, raise, get_store, put_store in *.

Lemma run_all_reachable ops st : reachable st → reachable (run_all ops st).
Proof.
  revert st. induction ops as [|op ops IH]; intros st Hst; simpl; [done|].
  apply IH. by constructor.
Qed.

Lemma next_pk_fresh {A} (t : gmap Z A) i : is_Some (t !! i) → i < next_pk t.
Proof.
  unfold next_pk.
  enough (i_le : ∀ j, is_Some (t !! j) → j ≤ map_fold (λ k _ acc, Z.max k acc) 0 t).
  { intros Hi. specialize (i_le i Hi). lia. }
  apply (map_fold_weak_ind (λ b (m : gmap Z A), ∀ j, is_Some (m !! j) → j ≤ b)).
  - intros j [x Hx]. by rewrite lookup_empty in Hx.
  - intros k x m b Hk IH j Hj.
    destruct (decide (k = j)) as [->|Hne]; [lia|].
    rewrite lookup_insert_ne in Hj by done. specialize (IH j Hj). lia.
Qed.

Section ObjectsGet.
Context `{Model A} (P : A → Prop) `{∀ r, Decision (P r)}.

Lemma objects_get_none st :
  (∀ j r, table st !! j = Some r → ¬ P r) →
  objects_get P st = (inl (DoesNotExist model_name), st).
Proof.
  intros Hno. unfold objects_get, mbind, M_bind, bind, get_store.
  replace (filter (λ kr : Z * A, P kr.2) (table st)) with (∅ : gmap Z A).
  - by rewrite map_to_list_empty.
  - symmetry. apply map_eq. intros j. rewrite lookup_empty.
    apply map_lookup_filter_None. right. intros r Hj. by apply (Hno j).
Qed.

Lemma objects_get_one st j r :
  table st !! j = Some r → P r →
  (∀ j' r', table st !! j' = Some r' → P r' → j' = j) →
  objects_get P st = (inr (with_pk j r), st).
Proof.
  intros Hj HP Huniq. unfold objects_get, mbind, M_bind, bind, get_store.
  replace (filter (λ kr : Z * A, P kr.2) (table st)) with ({[j := r]} : gmap Z A).
  - by rewrite map_to_list_singleton.
  - apply map_eq. intros i. destruct (decide (i = j)) as [->|Hne].
    + rewrite lookup_singleton_eq. symmetry. by apply map_lookup_filter_Some.
    + rewrite lookup_singleton_ne by done. symmetry.
      apply map_lookup_filter_None. right. intros r' Hi HP'.
      apply Hne. by eapply Huniq.
Qed.
End ObjectsGet.

Section ModelSave.
Context `{Model A}.

(** A save either is refused, leaving the database as it was, or writes
    exactly one row, which breaks no constraint. *)
Lemma Model_save_cases (self : A) now st :
  Model_save self now st = (inl IntegrityError, st) ∨
  ∃ k add,
    let row := with_pk k (pre_save add now self) in
    (pk self = Some k ∨ pk self = None ∧ k = next_pk (table st)) ∧
    ¬ violates k row st ∧
    Model_save self now st = (inr row, set_table (<[k := row]> (table st)) st).
Proof.
  unfold Model_save. unfold_M.
  destruct (pk self) as [k|].
  - destruct (decide (violates _ _ st)); [by left|].
    right. exists k, (bool_decide (table st !! k = None)). simpl. eauto.
  - destruct (decide (violates _ _ st)); [by left|].
    right. exists (next_pk (table st)), true. simpl. eauto.
Qed.

Lemma Model_delete_cases (self : A) st :
  Model_delete self st = (inl AssertionError, st) ∨
  ∃ k, pk self = Some k ∧ Model_delete self st = (inr tt, collect k st).
Proof.
  unfold Model_delete. unfold_M. destruct (pk self) as [k|]; eauto.
Qed.

Lemma get_by_pk_Some k r st :
  table st !! k = Some r → get_by_pk k st = (inr (with_pk k r), st).
Proof. intros Hk. unfold get_by_pk. unfold_M. by rewrite Hk. Qed.

Lemma get_by_pk_None k st :
  table st !! k = None → get_by_pk k st = (inl (DoesNotExist model_name), st).
Proof. intros Hk. unfold get_by_pk. unfold_M. by rewrite Hk. Qed.

Lemma get_by_pk_store k st : (get_by_pk k st).2 = st.
Proof. unfold get_by_pk. unfold_M. by destruct (table st !! k). Qed.
End ModelSave.

Lemma Model_save_inv `{Model A} (self : A) now st saved st' :
  Model_save self now st = (inr saved, st') →
  ∃ k add,
    (pk self = Some k ∧ add = bool_decide (table st !! k = None) ∨
     pk self = None ∧ k = next_pk (table st) ∧ add = true) ∧
    saved = with_pk k (pre_save add now self) ∧
    ¬ violates k saved st ∧
    st' = set_table (<[k := saved]> (table st)) st.
Proof.
  unfold Model_save. unfold_M. intros Hsave.
  destruct (pk self) as [k|]; simpl in Hsave.
  - destruct (decide (violates _ _ st)) as [|Hv]; [discriminate|].
    injection Hsave as <- <-.
    exists k, (bool_decide (table st !! k = None)).
    split; [by left|]. split; [done|by split].
  - destruct (decide (violates _ _ st)) as [|Hv]; [discriminate|].
    injection Hsave as <- <-.
    exists (next_pk (table st)), true.
    split; [by right|]. split; [done|by split].
Qed.

Lemma next_pk_free {A} (t : gmap Z A) : t !! next_pk t = None.
Proof.
  destruct (t !! next_pk t) as [x|] eqn:E; [|done].
  assert (next_pk t < next_pk t) by (apply next_pk_fresh; eauto). lia.
Qed.

Lemma objects_get_store `{Model A} (P : A → Prop) `{∀ r, Decision (P r)} st :
  (objects_get P st).2 = st.
Proof.
  unfold objects_get. unfold_M.
  destruct (map_to_list _) as [|[k r] [|]]; done.
Qed.

(** ** What each method can do to the database *)

Lemma Account_save_via_passes self now :
  ∃ self',
    (∀ super_save, Account_save_via super_save self now = super_save self' now) ∧
    a_id self' = a_id self ∧ a_created self' = a_created self ∧
    a_modified self' = a_modified self ∧
    name self' = name self ∧ is_active self' = is_active self ∧
    subdomain self' = (if decide (subdomain self = Some ""%string) then None
                       else subdomain self) ∧
    domain self' = (if decide (domain self = Some ""%string) then None
                    else domain self).
Proof.
  unfold Account_save_via. destruct self as [i c m n sub dom act]; simpl.
  destruct (decide (sub = Some ""%string)); simpl;
    destruct (decide (dom = Some ""%string)); simpl;
    eexists; (split; [intros; reflexivity|]); simpl; repeat split; done.
Qed.

Lemma AccountUser_delete_via_cases super_delete self st :
  (∃ e, AccountUser_delete_via super_delete self st = (inl e, st)) ∨
  AccountUser_delete_via super_delete self st = super_delete self st.
Proof.
  unfold AccountUser_delete_via, AccountUser_account, Account_owner.
  unfold mbind, M_bind, bind.
  destruct (get_by_pk (A:=Account) (au_account_id self) st) as [[e|a] st1] eqn:E1;
    pose proof (get_by_pk_store (A:=Account) (au_account_id self) st) as S1;
    rewrite E1 in S1; simpl in S1; subst st1; [eauto|].
  destruct (objects_get _ st) as [[e|o] st2] eqn:E2;
    pose proof (objects_get_store
                  (λ r : AccountOwner, Some (ao_account_id r) = a_id a) st) as S2;
    rewrite E2 in S2; simpl in S2; subst st2; [eauto|].
  destruct (decide _); [left; eauto | by right].
Qed.

Lemma AccountOwner_save_via_cases super_save self now st :
  (∃ e, AccountOwner_save_via super_save self now st = (inl e, st)) ∨
  AccountOwner_save_via super_save self now st = super_save self now st.
Proof.
  unfold AccountOwner_save_via, AccountOwner_account_user, AccountUser_account,
    AccountOwner_account.
  unfold mbind, M_bind, bind.
  destruct (get_by_pk (A:=AccountUser) (ao_account_user_id self) st) as [[e|au] st1] eqn:E1;
    pose proof (get_by_pk_store (A:=AccountUser) (ao_account_user_id self) st) as S1;
    rewrite E1 in S1; simpl in S1; subst st1; [eauto|].
  destruct (get_by_pk (A:=Account) (au_account_id au) st) as [[e|a1] st1] eqn:E2;
    pose proof (get_by_pk_store (A:=Account) (au_account_id au) st) as S2;
    rewrite E2 in S2; simpl in S2; subst st1; [eauto|].
  destruct (get_by_pk (A:=Account) (ao_account_id self) st) as [[e|a2] st1] eqn:E3;
    pose proof (get_by_pk_store (A:=Account) (ao_account_id self) st) as S3;
    rewrite E3 in S3; simpl in S3; subst st1; [eauto|].
  destruct (Model_ne a1 a2); [left; eauto | by right].
Qed.

(** ** The schema's invariants are kept *)

Lemma schema_ok_subseteq st st' :
  account_users st' ⊆ account_users st →
  account_owners st' ⊆ account_owners st →
  schema_ok st → schema_ok st'.
Proof.
  intros Hu Ho (Hpair & Hacc & Hmem). repeat split.
  - intros i j r1 r2 Hi Hj. eapply Hpair; by eapply lookup_weaken.
  - intros i j r1 r2 Hi Hj. eapply Hacc; by eapply lookup_weaken.
  - intros i j r1 r2 Hi Hj. eapply Hmem; by eapply lookup_weaken.
Qed.

Lemma schema_ok_insert_membership st k row :
  ¬ AccountUser_violates k row st → schema_ok st →
  schema_ok (set_account_users (<[k := row]> (account_users st)) st).
Proof.
  intros Hv (Hpair & Hacc & Hmem). split; [|by split].
  assert (Hfree : ∀ j r, j ≠ k → account_users st !! j = Some r →
            au_user_id r = au_user_id row → au_account_id r = au_account_id row →
            False).
  { intros j r Hne Hj Hu Ha. apply Hv.
    apply map_Exists_lookup. by exists j, r. }
  intros i j r1 r2. simpl.
  destruct (decide (i = k)) as [->|Hi], (decide (j = k)) as [->|Hj]; [done|..].
  - rewrite lookup_insert_eq, lookup_insert_ne by done.
    intros [= <-] Hj2 Hu Ha. exfalso. eapply (Hfree j r2); eauto.
  - rewrite lookup_insert_eq, lookup_insert_ne by done.
    intros Hi2 [= <-] Hu Ha. exfalso. eapply (Hfree i r1); eauto.
  - rewrite !lookup_insert_ne by done. apply Hpair.
Qed.

Lemma schema_ok_insert_owner st k row :
  ¬ AccountOwner_violates k row st → schema_ok st →
  schema_ok (set_account_owners (<[k := row]> (account_owners st)) st).
Proof.
  intros Hv (Hpair & Hacc & Hmem). split; [done|].
  assert (Hfree : ∀ j r, j ≠ k → account_owners st !! j = Some r →
            ao_account_id r = ao_account_id row ∨
            ao_account_user_id r = ao_account_user_id row → False).
  { intros j r Hne Hj Hsame. apply Hv.
    apply map_Exists_lookup. by exists j, r. }
  split; intros i j r1 r2; simpl;
    (destruct (decide (i = k)) as [->|Hi], (decide (j = k)) as [->|Hj]; [done|..]).
  - rewrite lookup_insert_eq, lookup_insert_ne by done.
    intros [= <-] Hj2 Ha. exfalso. eapply (Hfree j r2); eauto.
  - rewrite lookup_insert_eq, lookup_insert_ne by done.
    intros Hi2 [= <-] Ha. exfalso. eapply (Hfree i r1); eauto.
  - rewrite !lookup_insert_ne by done. apply Hacc.
  - rewrite lookup_insert_eq, lookup_insert_ne by done.
    intros [= <-] Hj2 Ha. exfalso. eapply (Hfree j r2); eauto.
  - rewrite lookup_insert_eq, lookup_insert_ne by done.
    intros Hi2 [= <-] Ha. exfalso. eapply (Hfree i r1); eauto.
  - rewrite !lookup_insert_ne by done. apply Hmem.
Qed.

Lemma Model_delete_ok `{Model A} (self : A) st :
  (∀ k, schema_ok st → schema_ok (collect (A:=A) k st)) →
  schema_ok st → schema_ok (Model_delete self st).2.
Proof.
  intros Hc Hst.
  destruct (Model_delete_cases self st) as [->|(k & _ & ->)]; [done|].
  by apply Hc.
Qed.

Lemma User_collect_ok k st : schema_ok st → schema_ok (User_collect k st).
Proof. apply schema_ok_subseteq; simpl; apply map_filter_subseteq. Qed.

Lemma Account_collect_ok k st : schema_ok st → schema_ok (Account_collect k st).
Proof. apply schema_ok_subseteq; simpl; apply map_filter_subseteq. Qed.

Lemma AccountUser_collect_ok k st :
  schema_ok st → schema_ok (AccountUser_collect k st).
Proof.
  apply schema_ok_subseteq; simpl;
    [apply delete_subseteq | apply map_filter_subseteq].
Qed.

Lemma AccountOwner_collect_ok k st :
  schema_ok st → schema_ok (AccountOwner_collect k st).
Proof. apply schema_ok_subseteq; simpl; [done | apply delete_subseteq]. Qed.

Lemma run_schema_ok op st : schema_ok st → schema_ok (run op st).
Proof.
  intros Hst. destruct op as [u now|u|a now|a|r now|r|r now|r]; simpl.
  - destruct (Model_save_cases u now st) as [->|(k & add & _ & _ & ->)]; [done|].
    revert Hst. by apply schema_ok_subseteq.
  - apply Model_delete_ok; [intros; by apply User_collect_ok | done].
  - destruct (Account_save_via_passes a now) as (a' & Hpass & _).
    unfold Account_save. rewrite Hpass.
    destruct (Model_save_cases a' now st) as [->|(k & add & _ & _ & ->)]; [done|].
    revert Hst. by apply schema_ok_subseteq.
  - apply Model_delete_ok; [intros; by apply Account_collect_ok | done].
  - destruct (Model_save_cases r now st) as [->|(k & add & _ & Hv & ->)]; [done|].
    by apply schema_ok_insert_membership.
  - unfold AccountUser_delete.
    destruct (AccountUser_delete_via_cases Model_delete r st) as [[e ->]| ->];
      [done|].
    apply Model_delete_ok; [intros; by apply AccountUser_collect_ok | done].
  - unfold AccountOwner_save.
    destruct (AccountOwner_save_via_cases Model_save r now st) as [[e ->]| ->];
      [done|].
    destruct (Model_save_cases r now st) as [->|(k & add & _ & Hv & ->)]; [done|].
    by apply schema_ok_insert_owner.
  - apply Model_delete_ok; [intros; by apply AccountOwner_collect_ok | done].
Qed.

Lemma reachable_schema_ok st : reachable st → schema_ok st.
Proof.
  induction 1 as [|st op _ IH]; [|by apply run_schema_ok].
  repeat split; intros i j r1 r2 Hi; simpl in Hi; by rewrite lookup_empty in Hi.
Qed.

(** ** [AccountUser.delete] *)

(** With an owner record on the account, the guard fires exactly when the
    key of that owner record is the key of the membership. *)
Lemma AccountUser_delete_via_owned super_delete self st j o :
  is_Some (accounts st !! au_account_id self) →
  account_owners st !! j = Some o → ao_account_id o = au_account_id self →
  one_owner_per_account st →
  AccountUser_delete_via super_delete self st =
    if decide (Some j = au_id self)
    then (inl (OwnershipRequired
                 "Cannot delete account owner beforeaccount or transferring ownership"),
          st)
    else super_delete self st.
Proof.
  intros [a Ha] Hj Hacc Hone.
  unfold AccountUser_delete_via, AccountUser_account, Account_owner.
  unfold mbind, M_bind, bind.
  rewrite (get_by_pk_Some (H:=Account_Model) _ a st Ha). simpl.
  rewrite (objects_get_one (H:=AccountOwner_Model) _ st j o Hj).
  - simpl. by destruct (decide (Some j = au_id self)).
  - by rewrite Hacc.
  - intros j' o' Hj' [= Ho']. eapply Hone; eauto. congruence.
Qed.

(** C1: deleting the membership that the account's owner record designates
    must fail with "ownership required", and deleting any other membership
    must go through. At Acme, where the owner record has key 1 and
    designates John's membership, key 2, the code does the opposite:
    deleting John's membership goes through and takes the owner record with
    it, and deleting Jane's membership, key 1, is refused. *)
Theorem delete_guard_compares_owner_key :
  reachable acme_store ∧
  account_users acme_store !! 1 = Some jane_membership ∧
  account_users acme_store !! 2 = Some john_membership ∧
  account_owners acme_store !! 1 = Some acme_owner ∧
  ao_account_user_id acme_owner = 2 ∧
  (AccountUser_delete john_membership acme_store).1 = inr tt ∧
  account_users (AccountUser_delete john_membership acme_store).2 !! 2 = None ∧
  account_owners (AccountUser_delete john_membership acme_store).2 = ∅ ∧
  AccountUser_delete jane_membership acme_store =
    (inl (OwnershipRequired
            "Cannot delete account owner beforeaccount or transferring ownership"),
     acme_store).
Proof.
  split; [apply run_all_reachable; constructor|].
  repeat split; vm_compute; reflexivity.
Qed.

(** C8: when the membership's account has no owner record at all, [delete]
    raises [AccountOwner.DoesNotExist] from the guard's access to
    [account.owner]; the inherited [delete] is never reached and the
    database is as before. *)
Theorem delete_without_owner_record self st :
  is_Some (accounts st !! au_account_id self) →
  (∀ j o, account_owners st !! j = Some o →
          ao_account_id o ≠ au_account_id self) →
  (∀ super_delete,
     AccountUser_delete_via super_delete self st =
       (inl (DoesNotExist MAccountOwner), st)) ∧
  AccountUser_delete self st = (inl (DoesNotExist MAccountOwner), st).
Proof.
  intros [a Ha] Hno.
  assert (Hvia : ∀ super_delete,
            AccountUser_delete_via super_delete self st =
              (inl (DoesNotExist MAccountOwner), st));
    [|split; [done | apply Hvia]].
  intros super_delete.
  unfold AccountUser_delete_via, AccountUser_account, Account_owner.
  unfold mbind, M_bind, bind.
  rewrite (get_by_pk_Some (H:=Account_Model) _ a st Ha). simpl.
  rewrite (objects_get_none (H:=AccountOwner_Model)); [done|].
  intros j o Hj [= Ho]. by eapply Hno.
Qed.

Lemma delete_without_owner_record_witness :
  AccountUser_delete jane_membership acme_members_store =
    (inl (DoesNotExist MAccountOwner), acme_members_store).
Proof.
  apply (delete_without_owner_record jane_membership acme_members_store).
  - exists acme. vm_compute. reflexivity.
  - intros j o Hj. exfalso.
    assert (He : account_owners acme_members_store = ∅)
      by (vm_compute; reflexivity).
    rewrite He, lookup_empty in Hj. discriminate.
Defined.

(** ** [AccountOwner.save] *)

(** C2: saving an owner record whose membership belongs to another account
    than the owner record's raises [AccountMismatch] whatever the inherited
    [save] would do, which is never called, and the database stays as it
    was; when the two accounts are the same, [save] is the inherited [save]
    on the unchanged instance. *)
Theorem AccountOwner_save_account_mismatch self now st au :
  account_users st !! ao_account_user_id self = Some au →
  is_Some (accounts st !! au_account_id au) →
  is_Some (accounts st !! ao_account_id self) →
  (au_account_id au ≠ ao_account_id self →
     (∀ super_save,
        AccountOwner_save_via super_save self now st = (inl AccountMismatch, st)) ∧
     AccountOwner_save self now st = (inl AccountMismatch, st)) ∧
  (au_account_id au = ao_account_id self →
     (∀ super_save,
        AccountOwner_save_via super_save self now st = super_save self now st) ∧
     AccountOwner_save self now st = Model_save self now st).
Proof.
  intros Hau [a1 Ha1] [a2 Ha2].
  assert (Hrun : ∀ super_save,
            AccountOwner_save_via super_save self now st =
              if decide (au_account_id au = ao_account_id self)
              then super_save self now st
              else (inl AccountMismatch, st)).
  { intros super_save.
    unfold AccountOwner_save_via, AccountOwner_account_user, AccountUser_account,
      AccountOwner_account.
    unfold mbind, M_bind, bind.
    rewrite (get_by_pk_Some (H:=AccountUser_Model) _ au st Hau). simpl.
    rewrite (get_by_pk_Some (H:=Account_Model) _ a1 st Ha1).
    rewrite (get_by_pk_Some (H:=Account_Model) _ a2 st Ha2).
    unfold Model_ne, Model_eq. simpl.
    destruct (decide (au_account_id au = ao_account_id self)) as [Heq|Hne].
    - rewrite bool_decide_eq_true_2 by congruence. done.
    - rewrite bool_decide_eq_false_2 by congruence. done. }
  split; intros Hcmp.
  - split; [intros super_save|unfold AccountOwner_save];
      rewrite Hrun; by destruct (decide _).
  - split; [intros super_save|unfold AccountOwner_save];
      rewrite Hrun; by destruct (decide _).
Qed.

Lemma AccountOwner_save_account_mismatch_witness :
  AccountOwner_save (unsaved_owner 1 1) 104 two_accounts_store =
    (inl AccountMismatch, two_accounts_store) ∧
  AccountOwner_save (unsaved_owner 2 1) 104 two_accounts_store =
    Model_save (unsaved_owner 2 1) 104 two_accounts_store.
Proof.
  split.
  - apply (AccountOwner_save_account_mismatch (unsaved_owner 1 1) 104
             two_accounts_store
             (mkAccountUser (Some 1) (Some 103) (Some 103) 1 2 false)).
    + vm_compute. reflexivity.
    + vm_compute. eauto.
    + vm_compute. eauto.
    + simpl. lia.
  - apply (AccountOwner_save_account_mismatch (unsaved_owner 2 1) 104
             two_accounts_store
             (mkAccountUser (Some 1) (Some 103) (Some 103) 1 2 false)).
    + vm_compute. reflexivity.
    + vm_compute. eauto.
    + vm_compute. eauto.
    + simpl. lia.
Defined.

(** ** [Account.save] *)

Lemma Model_save_Account_stored (self : Account) now st saved st' :
  Model_save self now st = (inr saved, st') →
  ∃ k, a_id saved = Some k ∧ accounts st' !! k = Some saved ∧
       (∀ j, j ≠ k → accounts st' !! j = accounts st !! j) ∧
       users st' = users st ∧ account_users st' = account_users st ∧
       account_owners st' = account_owners st ∧
       name saved = name self ∧ is_active saved = is_active self ∧
       subdomain saved = subdomain self ∧ domain saved = domain self.
Proof.
  intros Hsave.
  destruct (Model_save_cases self now st) as [Herr|(k & add & _ & _ & Hok)];
    [congruence|].
  rewrite Hok in Hsave. injection Hsave as <- <-.
  exists k. simpl. rewrite lookup_insert_eq.
  repeat split; try done. intros j Hj. by rewrite lookup_insert_ne.
Qed.

(** C3: [save] hands the inherited [save] the instance it was called on,
    with [None] for its [subdomain] (resp. [domain]) whenever that field
    held the empty string and every other field as it was, so the empty
    string never reaches the database: the row a successful save stores,
    under the key of the instance or under a new key, is the row of this
    account and has [None] there. *)
Theorem Account_save_blank_to_null self now :
  ∃ self',
    (∀ super_save, Account_save_via super_save self now = super_save self' now) ∧
    a_id self' = a_id self ∧ a_created self' = a_created self ∧
    a_modified self' = a_modified self ∧
    name self' = name self ∧ is_active self' = is_active self ∧
    (subdomain self = Some ""%string → subdomain self' = None) ∧
    (subdomain self ≠ Some ""%string → subdomain self' = subdomain self) ∧
    (domain self = Some ""%string → domain self' = None) ∧
    (domain self ≠ Some ""%string → domain self' = domain self) ∧
    subdomain self' ≠ Some ""%string ∧ domain self' ≠ Some ""%string ∧
    ∀ st saved st',
      Account_save self now st = (inr saved, st') →
      ∃ k, a_id saved = Some k ∧
           (a_id self = Some k ∨ a_id self = None ∧ accounts st !! k = None) ∧
           accounts st' !! k = Some saved ∧
           name saved = name self ∧ is_active saved = is_active self ∧
           (subdomain self = Some ""%string → subdomain saved = None) ∧
           (subdomain self ≠ Some ""%string → subdomain saved = subdomain self) ∧
           (domain self = Some ""%string → domain saved = None) ∧
           (domain self ≠ Some ""%string → domain saved = domain self) ∧
           subdomain saved ≠ Some ""%string ∧ domain saved ≠ Some ""%string.
Proof.
  destruct (Account_save_via_passes self now)
    as (self' & Hpass & Hid & Hc & Hm & Hn & Ha & Hsub & Hdom).
  assert (Hs1 : subdomain self = Some ""%string → subdomain self' = None).
  { intros E. rewrite Hsub. by rewrite decide_True. }
  assert (Hs3 : subdomain self ≠ Some ""%string →
                subdomain self' = subdomain self).
  { intros E. rewrite Hsub. by rewrite decide_False. }
  assert (Hd1 : domain self = Some ""%string → domain self' = None).
  { intros E. rewrite Hdom. by rewrite decide_True. }
  assert (Hd3 : domain self ≠ Some ""%string → domain self' = domain self).
  { intros E. rewrite Hdom. by rewrite decide_False. }
  assert (Hs2 : subdomain self' ≠ Some ""%string).
  { rewrite Hsub. by destruct (decide (subdomain self = Some ""%string)). }
  assert (Hd2 : domain self' ≠ Some ""%string).
  { rewrite Hdom. by destruct (decide (domain self = Some ""%string)). }
  exists self'. do 12 (split; [done|]).
  intros st saved st' Hsave. unfold Account_save in Hsave. rewrite Hpass in Hsave.
  destruct (Model_save_inv _ _ _ _ _ Hsave) as (k & add & Hk & -> & _ & ->).
  exists k. simpl. rewrite lookup_insert_eq.
  split; [done|]. split; [|by do 8 (split; [done|])].
  simpl in Hk. rewrite Hid in Hk.
  destruct Hk as [[Hk _]|(Hk & -> & _)]; [by left|right].
  split; [done|]. apply next_pk_free.
Qed.

Lemma Account_save_blank_to_null_witness :
  ∃ saved st',
    Account_save (unsaved_account "Acme" (Some ""%string) (Some ""%string)) 100
                 empty_store = (inr saved, st') ∧
    name saved = "Acme"%string ∧
    subdomain saved = None ∧ domain saved = None.
Proof.
  destruct (Account_save_blank_to_null
              (unsaved_account "Acme" (Some ""%string) (Some ""%string)) 100)
    as (self' & _ & _ & _ & _ & _ & _ & _ & _ & _ & _ & _ & _ & Hstored).
  exists acme,
    (run (OpAccountSave (unsaved_account "Acme" (Some ""%string) (Some ""%string))
                        100) empty_store).
  assert (Hrun : Account_save
                   (unsaved_account "Acme" (Some ""%string) (Some ""%string)) 100
                   empty_store =
                 (inr acme,
                  run (OpAccountSave
                         (unsaved_account "Acme" (Some ""%string) (Some ""%string))
                         100) empty_store))
    by (vm_compute; reflexivity).
  split; [exact Hrun|].
  destruct (Hstored _ _ _ Hrun) as (k & _ & _ & _ & Hn & _ & Hs & _ & Hd & _).
  split; [exact Hn|]. split; [apply Hs | apply Hd]; reflexivity.
Defined.

(** C9: the instance [save] hands to the inherited [save] has the name, the
    active flag, the key and the timestamps of the one it was called on; the
    call touches no other table, and in the accounts table no row but the
    saved one; a refused save leaves the database as it was. *)
Theorem Account_save_frame self now :
  ∃ self',
    (∀ super_save, Account_save_via super_save self now = super_save self' now) ∧
    name self' = name self ∧ is_active self' = is_active self ∧
    a_id self' = a_id self ∧ a_created self' = a_created self ∧
    a_modified self' = a_modified self ∧
    ∀ st res st',
      Account_save self now st = (res, st') →
      users st' = users st ∧ account_users st' = account_users st ∧
      account_owners st' = account_owners st ∧
      match res with
      | inl _ => st' = st
      | inr saved =>
          name saved = name self ∧ is_active saved = is_active self ∧
          ∃ k, a_id saved = Some k ∧ accounts st' !! k = Some saved ∧
               ∀ j, j ≠ k → accounts st' !! j = accounts st !! j
      end.
Proof.
  destruct (Account_save_via_passes self now)
    as (self' & Hpass & Hid & Hc & Hm & Hn & Ha & _).
  exists self'. repeat (split; [done|]).
  intros st res st' Hsave. unfold Account_save in Hsave. rewrite Hpass in Hsave.
  destruct res as [e|saved].
  - destruct (Model_save_cases self' now st) as [Herr|(k & add & _ & _ & Hok)];
      [|congruence].
    rewrite Herr in Hsave. by injection Hsave as _ <-.
  - destruct (Model_save_Account_stored _ _ _ _ _ Hsave)
      as (k & Hk & Hrow & Hothers & Hu & Hau & Hao & Hn' & Ha' & _).
    repeat (split; [congruence|]). by exists k.
Qed.

Lemma Account_save_frame_witness :
  ∃ saved st',
    Account_save acme_blank 200 acme_store = (inr saved, st') ∧
    name saved = "Acme"%string ∧ is_active saved = true ∧
    account_users st' = account_users acme_store ∧
    account_owners st' = account_owners acme_store.
Proof.
  destruct (Account_save_frame acme_blank 200)
    as (self' & _ & _ & _ & _ & _ & _ & Hst).
  exists (mkAccount (Some 1) (Some 100) (Some 200) "Acme" None None true),
    (run (OpAccountSave acme_blank 200) acme_store).
  assert (Hrun : Account_save acme_blank 200 acme_store =
                 (inr (mkAccount (Some 1) (Some 100) (Some 200) "Acme" None None
                                 true),
                  run (OpAccountSave acme_blank 200) acme_store))
    by (vm_compute; reflexivity).
  split; [exact Hrun|].
  destruct (Hst _ _ _ Hrun) as (_ & Hau & Hao & Hn & Ha & _).
  exact (conj Hn (conj Ha (conj Hau Hao))).
Defined.

(** C10: only the empty string is turned into [None]. A [subdomain] or
    [domain] that holds anything else, a blank such as [" "] included, or
    that is [None] already, reaches the inherited [save], and the stored
    row, as it is. *)
Theorem Account_save_only_empty_string self now :
  ∃ self',
    (∀ super_save, Account_save_via super_save self now = super_save self' now) ∧
    (subdomain self ≠ Some ""%string → subdomain self' = subdomain self) ∧
    (domain self ≠ Some ""%string → domain self' = domain self) ∧
    ∀ st saved st',
      Account_save self now st = (inr saved, st') →
      (subdomain self ≠ Some ""%string → subdomain saved = subdomain self) ∧
      (domain self ≠ Some ""%string → domain saved = domain self).
Proof.
  destruct (Account_save_via_passes self now)
    as (self' & Hpass & _ & _ & _ & _ & _ & Hsub & Hdom).
  assert (Hs : subdomain self ≠ Some ""%string → subdomain self' = subdomain self).
  { intros E. rewrite Hsub. by rewrite decide_False. }
  assert (Hd : domain self ≠ Some ""%string → domain self' = domain self).
  { intros E. rewrite Hdom. by rewrite decide_False. }
  exists self'. repeat (split; [done|]).
  intros st saved st' Hsave. unfold Account_save in Hsave. rewrite Hpass in Hsave.
  destruct (Model_save_Account_stored _ _ _ _ _ Hsave)
    as (k & _ & _ & _ & _ & _ & _ & _ & _ & Es & Ed).
  rewrite Es, Ed. done.
Qed.

Lemma Account_save_only_empty_string_witness :
  ∃ saved st',
    Account_save (unsaved_account "Acme" (Some " "%string) None) 100 empty_store =
      (inr saved, st') ∧
    subdomain saved = Some " "%string ∧ domain saved = None.
Proof.
  destruct (Account_save_only_empty_string
              (unsaved_account "Acme" (Some " "%string) None) 100)
    as (self' & _ & _ & _ & Hstored).
  exists (mkAccount (Some 1) (Some 100) (Some 100) "Acme" (Some " "%string) None
                    true),
    (run (OpAccountSave (unsaved_account "Acme" (Some " "%string) None) 100)
         empty_store).
  assert (Hrun : Account_save
                   (unsaved_account "Acme" (Some " "%string) None) 100
                   empty_store =
                 (inr (mkAccount (Some 1) (Some 100) (Some 100) "Acme"
                                 (Some " "%string) None true),
                  run (OpAccountSave
                         (unsaved_account "Acme" (Some " "%string) None) 100)
                      empty_store))
    by (vm_compute; reflexivity).
  split; [exact Hrun|].
  destruct (Hstored _ _ _ Hrun) as (Hs & Hd).
  split; [apply Hs | apply Hd]; simpl; congruence.
Defined.

(** ** [Account.is_member] *)

(** C4: [is_member] must answer whether the user has a membership in the
    account. It never answers: [self.objects] reaches for the manager through
    an instance, which raises [AttributeError] before the manager's [users]
    is looked at, whatever that attribute may be. So it is at Acme for Jane,
    who is a member. *)
Theorem is_member_raises {Mgr} (manager : Mgr) users_attr :
  (∀ self user st,
     is_member manager users_attr self user st =
       (inl (AttributeError "Manager isn't accessible via Account instances"), st)) ∧
  accounts acme_store !! 1 = Some acme ∧
  users acme_store !! 1 = Some jane ∧
  account_users acme_store !! 1 = Some jane_membership ∧
  au_user_id jane_membership = 1 ∧ au_account_id jane_membership = 1 ∧
  is_member manager users_attr acme jane acme_store =
    (inl (AttributeError "Manager isn't accessible via Account instances"),
     acme_store).
Proof.
  assert (Hraise : ∀ self user st,
            is_member manager users_attr self user st =
              (inl (AttributeError
                      "Manager isn't accessible via Account instances"), st))
    by reflexivity.
  split; [exact Hraise|].
  repeat split; first [apply Hraise | vm_compute; reflexivity].
Qed.

(** ** [AccountUser.full_name] *)

(** C7: reading [full_name] gives the first name of the membership's user,
    one space, and the last name, and leaves the database alone; the
    property has no setter, so assigning to it is an [AttributeError]. *)
Theorem full_name_spec self st u :
  users st !! au_user_id self = Some u →
  property_get full_name self st =
    (inr (first_name u +:+ " " +:+ last_name u), st) ∧
  ∀ v, property_set full_name self v st =
         (inl (AttributeError "can't set attribute"), st).
Proof.
  intros Hu. split; [|done].
  unfold property_get, full_name, AccountUser_user. simpl.
  unfold mbind, M_bind, bind.
  by rewrite (get_by_pk_Some (H:=User_Model) _ u st Hu).
Qed.

Lemma full_name_spec_witness :
  property_get full_name jane_membership acme_store =
    (inr "Jane Doe"%string, acme_store).
Proof.
  apply (full_name_spec jane_membership acme_store jane).
  vm_compute. reflexivity.
Defined.

(** ** Uniqueness *)

Lemma Model_save_refused `{Model A} (self : A) now st :
  (∀ k add,
     pk self = Some k ∨ pk self = None ∧ k = next_pk (table st) →
     violates k (with_pk k (pre_save add now self)) st) →
  Model_save self now st = (inl IntegrityError, st).
Proof.
  intros Hv.
  destruct (Model_save_cases self now st) as [->|(k & add & Hk & Hok & _)];
    [done|].
  exfalso. apply Hok. by apply Hv.
Qed.

Lemma key_of_other_row {A} (t : gmap Z A) (own : option Z) i k :
  is_Some (t !! i) → own ≠ Some i →
  own = Some k ∨ own = None ∧ k = next_pk t → i ≠ k.
Proof.
  intros Hi Hown [->|[_ ->]]; [congruence|].
  apply next_pk_fresh in Hi. lia.
Qed.

(** C5: in every database the operations can lead to, a (user, account)
    pair has at most one membership; saving a membership under another key
    (a new one included) with the pair of an existing row is refused by the
    database, which stays as it was. *)
Theorem unique_together_user_account :
  (∀ st, reachable st → one_membership_per_pair st) ∧
  (∀ st i r self now,
     account_users st !! i = Some r → au_id self ≠ Some i →
     au_user_id self = au_user_id r → au_account_id self = au_account_id r →
     Model_save self now st = (inl IntegrityError, st)).
Proof.
  split.
  - intros st Hst. by destruct (reachable_schema_ok st Hst) as (? & _).
  - intros st i r self now Hi Hkey Hu Ha.
    apply Model_save_refused. intros k add Hk. simpl.
    apply map_Exists_lookup. exists i, r.
    repeat split; [done| |done..].
    eapply (key_of_other_row (account_users st)); eauto.
Qed.

Lemma unique_together_user_account_witness :
  one_membership_per_pair acme_store ∧
  Model_save (unsaved_membership 1 1) 106 acme_store =
    (inl IntegrityError, acme_store).
Proof.
  split.
  - apply (proj1 unique_together_user_account).
    apply run_all_reachable. constructor.
  - apply (proj2 unique_together_user_account acme_store 1 jane_membership).
    + vm_compute. reflexivity.
    + simpl. discriminate.
    + reflexivity.
    + reflexivity.
Defined.

(** C6: in every database the operations can lead to, an account has at
    most one owner record and a membership has at most one owner record; a
    save of an owner record under another key for an account or a membership
    that has one already is refused, by [AccountOwner.save] as by the
    inherited [save], and the database stays as it was. *)
Theorem one_owner_record :
  (∀ st, reachable st →
         one_owner_per_account st ∧ one_owner_per_membership st) ∧
  (∀ st i r self now,
     account_owners st !! i = Some r → ao_id self ≠ Some i →
     ao_account_id self = ao_account_id r ∨
     ao_account_user_id self = ao_account_user_id r →
     Model_save self now st = (inl IntegrityError, st) ∧
     ∃ e, AccountOwner_save self now st = (inl e, st)).
Proof.
  split.
  - intros st Hst. by destruct (reachable_schema_ok st Hst) as (_ & ? & ?).
  - intros st i r self now Hi Hkey Hsame.
    assert (Hrefused : Model_save self now st = (inl IntegrityError, st)).
    { apply Model_save_refused. intros k add Hk. simpl.
      apply map_Exists_lookup. exists i, r.
      repeat split; [done| |by destruct Hsame; [left|right]].
      eapply (key_of_other_row (account_owners st)); eauto. }
    split; [done|]. unfold AccountOwner_save.
    destruct (AccountOwner_save_via_cases Model_save self now st) as [[e ->]| ->];
      eauto.
Qed.

Lemma one_owner_record_witness :
  (one_owner_per_account acme_store ∧ one_owner_per_membership acme_store) ∧
  ∃ e, AccountOwner_save (unsaved_owner 1 1) 106 acme_store = (inl e, acme_store).
Proof.
  split.
  - apply (proj1 one_owner_record). apply run_all_reachable. constructor.
  - apply (proj2 one_owner_record acme_store 1 acme_owner).
    + vm_compute. reflexivity.
    + simpl. discriminate.
    + left. reflexivity.
Defined.

(** ** Every operation is at most one write *)

(** [AccountOwner.save], step by step. *)
Lemma AccountOwner_save_via_eq super_save self now st :
  AccountOwner_save_via super_save self now st =
    match account_users st !! ao_account_user_id self with
    | None => (inl (DoesNotExist MAccountUser), st)
    | Some m =>
        match accounts st !! au_account_id m with
        | None => (inl (DoesNotExist MAccount), st)
        | Some _ =>
            match accounts st !! ao_account_id self with
            | None => (inl (DoesNotExist MAccount), st)
            | Some _ =>
                if decide (au_account_id m = ao_account_id self)
                then super_save self now st
                else (inl AccountMismatch, st)
            end
        end
    end.
Proof.
  unfold AccountOwner_save_via, AccountOwner_account_user, AccountUser_account,
    AccountOwner_account.
  unfold mbind, M_bind, bind.
  destruct (account_users st !! ao_account_user_id self) as [m|] eqn:Hm.
  2: { by rewrite (get_by_pk_None (H:=AccountUser_Model) _ st Hm). }
  rewrite (get_by_pk_Some (H:=AccountUser_Model) _ m st Hm). simpl.
  destruct (accounts st !! au_account_id m) as [a1|] eqn:Ha1.
  2: { by rewrite (get_by_pk_None (H:=Account_Model) _ st Ha1). }
  rewrite (get_by_pk_Some (H:=Account_Model) _ a1 st Ha1).
  destruct (accounts st !! ao_account_id self) as [a2|] eqn:Ha2.
  2: { by rewrite (get_by_pk_None (H:=Account_Model) _ st Ha2). }
  rewrite (get_by_pk_Some (H:=Account_Model) _ a2 st Ha2).
  unfold Model_ne, Model_eq. simpl.
  destruct (decide (au_account_id m = ao_account_id self)) as [Heq|Hne].
  - rewrite bool_decide_eq_true_2 by congruence. done.
  - rewrite bool_decide_eq_false_2 by congruence. done.
Qed.

Lemma Model_save_User_write (u : User) now st :
  (Model_save u now st).2 = st ∨ write st (Model_save u now st).2.
Proof.
  destruct (Model_save_cases u now st) as [->|(k & add & _ & _ & ->)];
    [by left|right]. apply write_user.
Qed.

Lemma Model_save_Account_write (a : Account) now st :
  subdomain a ≠ Some ""%string → domain a ≠ Some ""%string →
  (Model_save a now st).2 = st ∨ write st (Model_save a now st).2.
Proof.
  intros Hs Hd.
  destruct (Model_save_cases a now st) as [->|(k & add & _ & Hv & ->)];
    [by left|right]. by apply write_account.
Qed.

Lemma Model_save_AccountUser_write (r : AccountUser) now st :
  (Model_save r now st).2 = st ∨ write st (Model_save r now st).2.
Proof.
  destruct (Model_save_cases r now st) as [->|(k & add & _ & Hv & ->)];
    [by left|right]. by apply write_membership.
Qed.

Lemma AccountOwner_save_write (r : AccountOwner) now st :
  (AccountOwner_save r now st).2 = st ∨ write st (AccountOwner_save r now st).2.
Proof.
  unfold AccountOwner_save. rewrite AccountOwner_save_via_eq.
  destruct (account_users st !! ao_account_user_id r) as [m|] eqn:Hm;
    [|by left].
  destruct (accounts st !! au_account_id m) as [a1|]; [|by left].
  destruct (accounts st !! ao_account_id r) as [a2|] eqn:Ha; [|by left].
  destruct (decide (au_account_id m = ao_account_id r)); [|by left].
  destruct (Model_save_cases r now st) as [->|(k & add & _ & Hv & ->)];
    [by left|right].
  apply write_owner; simpl; [done|done|by rewrite Ha|by rewrite Hm].
Qed.

Lemma run_write op st : run op st = st ∨ write st (run op st).
Proof.
  destruct op as [u now|u|a now|a|r now|r|r now|r]; simpl.
  - apply Model_save_User_write.
  - destruct (Model_delete_cases u st) as [->|(k & _ & ->)]; [by left|right].
    apply write_user_gone.
  - destruct (Account_save_via_passes a now)
      as (a' & Hpass & _ & _ & _ & _ & _ & Hs & Hd).
    unfold Account_save. rewrite Hpass. apply Model_save_Account_write.
    + rewrite Hs. by destruct (decide (subdomain a = Some ""%string)).
    + rewrite Hd. by destruct (decide (domain a = Some ""%string)).
  - destruct (Model_delete_cases a st) as [->|(k & _ & ->)]; [by left|right].
    apply write_account_gone.
  - apply Model_save_AccountUser_write.
  - unfold AccountUser_delete.
    destruct (AccountUser_delete_via_cases Model_delete r st) as [[e ->]| ->];
      [by left|].
    destruct (Model_delete_cases r st) as [->|(k & _ & ->)]; [by left|right].
    apply write_membership_gone.
  - apply AccountOwner_save_write.
  - destruct (Model_delete_cases r st) as [->|(k & _ & ->)]; [by left|right].
    apply write_owner_gone.
Qed.

(** An invariant of the empty database that every write keeps holds in
    every reachable database. *)
Lemma reachable_ind_write (P : Store → Prop) :
  P empty_store → (∀ st st', P st → write st st' → P st') →
  ∀ st, reachable st → P st.
Proof.
  intros Hempty Hwrite st. induction 1 as [|st op _ IH]; [done|].
  destruct (run_write op st) as [->|Hw]; [done|]. by eapply Hwrite.
Qed.

Lemma is_Some_insert_mono {A} (m : gmap Z A) k x j :
  is_Some (m !! j) → is_Some (<[k := x]> m !! j).
Proof.
  intros Hj. destruct (decide (k = j)) as [->|Hne].
  - rewrite lookup_insert_eq. eauto.
  - by rewrite lookup_insert_ne.
Qed.

Lemma owner_survives_row gone (aus : gmap Z AccountUser) kr :
  owner_survives gone aus kr →
  ∀ m, aus !! ao_account_user_id kr.2 = Some m → gone m = false.
Proof.
  unfold owner_survives. intros Hs m Hm. rewrite Hm in Hs. simpl in Hs.
  destruct (gone m); congruence.
Qed.

Lemma write_refs_ok st st' : refs_ok st → write st st' → refs_ok st'.
Proof.
  intros Hao Hw. unfold refs_ok in *.
  destruct Hw as [k u|k|k row _ _ _ _|k|k row _ _|k|k row _ _ Ha Hm|k]; simpl.
  - done.
  - intros j o [Hj Hs]%map_lookup_filter_Some.
    destruct (Hao j o Hj) as [Ha [m Hm]]. split; [done|].
    exists m. apply map_lookup_filter_Some. split; [done|]. simpl.
    apply (owner_survives_row _ _ _ Hs) in Hm.
    by apply bool_decide_eq_false in Hm.
  - intros j o Hj. destruct (Hao j o Hj). split; [|done].
    by apply is_Some_insert_mono.
  - intros j o [Hj [Hp Hs]]%map_lookup_filter_Some. simpl in Hp.
    destruct (Hao j o Hj) as [Ha [m Hm]].
    split; [by rewrite lookup_delete_ne|].
    exists m. apply map_lookup_filter_Some. split; [done|]. simpl.
    apply (owner_survives_row _ _ _ Hs) in Hm.
    by apply bool_decide_eq_false in Hm.
  - intros j o Hj. destruct (Hao j o Hj). split; [done|].
    by apply is_Some_insert_mono.
  - intros j o [Hj Hp]%map_lookup_filter_Some. simpl in Hp.
    destruct (Hao j o Hj). split; [done|]. by rewrite lookup_delete_ne.
  - intros j o Hj. destruct (decide (k = j)) as [->|Hne].
    + rewrite lookup_insert_eq in Hj. by injection Hj as <-.
    + rewrite lookup_insert_ne in Hj by done. by apply (Hao j o).
  - intros j o Hj. apply lookup_delete_Some in Hj as [_ Hj]. by apply (Hao j o).
Qed.

Lemma insert_keeps {A} (P : Z → A → Prop) (m : gmap Z A) k x :
  P k x → (∀ i y, m !! i = Some y → P i y) →
  ∀ i y, <[k := x]> m !! i = Some y → P i y.
Proof.
  intros Hx Hm i y Hi. destruct (decide (k = i)) as [->|Hne].
  - rewrite lookup_insert_eq in Hi. by injection Hi as <-.
  - rewrite lookup_insert_ne in Hi by done. by apply Hm.
Qed.

Lemma filter_keeps {A} (P : Z → A → Prop) (Q : Z * A → Prop)
    `{∀ x, Decision (Q x)} (m : gmap Z A) :
  (∀ i y, m !! i = Some y → P i y) →
  ∀ i y, filter Q m !! i = Some y → P i y.
Proof. intros Hm i y [Hi _]%map_lookup_filter_Some. by apply Hm. Qed.

Lemma delete_keeps {A} (P : Z → A → Prop) (m : gmap Z A) k :
  (∀ i y, m !! i = Some y → P i y) →
  ∀ i y, delete k m !! i = Some y → P i y.
Proof. intros Hm i y [_ Hi]%lookup_delete_Some. by apply Hm. Qed.

Lemma write_keys_ok st st' : keys_ok st → write st st' → keys_ok st'.
Proof.
  intros (Hu & Ha & Hau & Hao) Hw.
  destruct Hw as [k u|k|k row Hk _ _ _|k|k row Hk _|k|k row Hk _|k];
    repeat split; simpl; try done.
  - by apply (insert_keeps (λ k u, u_id u = Some k)).
  - by apply (delete_keeps (λ k u, u_id u = Some k)).
  - by apply (filter_keeps (λ k r, au_id r = Some k)).
  - by apply (filter_keeps (λ k o, ao_id o = Some k)).
  - by apply (insert_keeps (λ k a, a_id a = Some k)).
  - by apply (delete_keeps (λ k a, a_id a = Some k)).
  - by apply (filter_keeps (λ k r, au_id r = Some k)).
  - by apply (filter_keeps (λ k o, ao_id o = Some k)).
  - by apply (insert_keeps (λ k r, au_id r = Some k)).
  - by apply (delete_keeps (λ k r, au_id r = Some k)).
  - by apply (filter_keeps (λ k o, ao_id o = Some k)).
  - by apply (insert_keeps (λ k o, ao_id o = Some k)).
  - by apply (delete_keeps (λ k o, ao_id o = Some k)).
Qed.

Lemma write_no_blank st st' : no_blank st → write st st' → no_blank st'.
Proof.
  intros Hst Hw. unfold no_blank in *.
  destruct Hw as [k u|k|k row _ _ Hs Hd|k|k row _ _|k|k row _ _|k];
    simpl; try done.
  - by apply (insert_keeps
                (λ _ a, subdomain a ≠ Some ""%string ∧ domain a ≠ Some ""%string)).
  - by apply (delete_keeps
                (λ _ a, subdomain a ≠ Some ""%string ∧ domain a ≠ Some ""%string)).
Qed.

Lemma accounts_unique_subseteq st st' :
  accounts st' ⊆ accounts st → accounts_unique st → accounts_unique st'.
Proof.
  intros Hsub Hst i j a b Hi Hj. eapply Hst; by eapply lookup_weaken.
Qed.

Lemma accounts_unique_insert st k row :
  ¬ Account_violates k row st → accounts_unique st →
  accounts_unique (set_accounts (<[k := row]> (accounts st)) st).
Proof.
  intros Hv Hst.
  assert (Hfree : ∀ j r, j ≠ k → accounts st !! j = Some r →
            ¬ clash (subdomain row) (subdomain r) ∧
            ¬ clash (domain row) (domain r)).
  { intros j r Hne Hj. split; intros Hc; apply Hv;
      apply map_Exists_lookup; exists j, r; auto. }
  intros i j a b. simpl.
  destruct (decide (i = k)) as [->|Hi], (decide (j = k)) as [->|Hj].
  - done.
  - rewrite lookup_insert_eq, lookup_insert_ne by done.
    intros [= <-] Hj2 _. destruct (Hfree j b Hj Hj2) as [Hs Hd].
    split; intros Hsome E; [apply Hs | apply Hd]; by split.
  - rewrite lookup_insert_eq, lookup_insert_ne by done.
    intros Hi2 [= <-] _. destruct (Hfree i a Hi Hi2) as [Hs Hd].
    split; intros Hsome E; [apply Hs | apply Hd]; (split; [by rewrite <- E|done]).
  - rewrite !lookup_insert_ne by done. apply Hst.
Qed.

Lemma write_accounts_unique st st' :
  accounts_unique st → write st st' → accounts_unique st'.
Proof.
  intros Hst Hw.
  destruct Hw as [k u|k|k row _ Hv _ _|k|k row _ _|k|k row _ _|k];
    try (revert Hst; by apply accounts_unique_subseteq).
  - by apply accounts_unique_insert.
  - revert Hst. apply accounts_unique_subseteq. simpl. apply delete_subseteq.
Qed.

Lemma reachable_refs_ok st : reachable st → refs_ok st.
Proof.
  apply reachable_ind_write; [|apply write_refs_ok].
  intros i r Hi; simpl in Hi; by rewrite lookup_empty in Hi.
Qed.

Lemma reachable_keys_ok st : reachable st → keys_ok st.
Proof.
  apply reachable_ind_write; [|apply write_keys_ok].
  repeat split; intros i r Hi; simpl in Hi; by rewrite lookup_empty in Hi.
Qed.

Lemma reachable_no_blank st : reachable st → no_blank st.
Proof.
  apply reachable_ind_write; [|apply write_no_blank].
  intros i r Hi; simpl in Hi; by rewrite lookup_empty in Hi.
Qed.

Lemma reachable_accounts_unique st : reachable st → accounts_unique st.
Proof.
  apply reachable_ind_write; [|apply write_accounts_unique].
  intros i j a b Hi; simpl in Hi; by rewrite lookup_empty in Hi.
Qed.

(** ** More on saving *)

(** [Account.save] on an instance without blanks is the inherited save on
    that very instance. *)
Lemma Account_save_no_blank self now :
  subdomain self ≠ Some ""%string → domain self ≠ Some ""%string →
  Account_save self now = Model_save self now.
Proof.
  intros Hs Hd. unfold Account_save, Account_save_via.
  destruct (decide (subdomain self = Some ""%string)); [done|].
  by destruct (decide (domain self = Some ""%string)).
Qed.



(** X2: what a successful [Account.save] returns can be read back: the
    instance has a key, and loading that key from the new database gives the
    instance itself. An instance that had no key gets one no row was stored
    under, so saving it overwrites nothing. *)
Theorem Account_save_then_get self now st saved st' :
  Account_save self now st = (inr saved, st') →
  ∃ k, a_id saved = Some k ∧
       get_by_pk k st' = (inr saved, st') ∧
       (a_id self = Some k ∨ a_id self = None ∧ accounts st !! k = None).
Proof.
  intros Hsave.
  destruct (Account_save_via_passes self now)
    as (self' & Hpass & Hid & _).
  unfold Account_save in Hsave. rewrite Hpass in Hsave.
  destruct (Model_save_inv _ _ _ _ _ Hsave) as (k & add & Hk & -> & _ & ->).
  exists k. split; [done|]. split.
  - rewrite (get_by_pk_Some (H:=Account_Model) k
               (with_pk k (pre_save add now self'))); [done|].
    simpl. by rewrite lookup_insert_eq.
  - simpl in Hk. rewrite Hid in Hk.
    destruct Hk as [[Hk _]|(Hk & -> & _)]; [by left|right].
    split; [done|]. apply next_pk_free.
Qed.

Lemma Account_save_then_get_witness :
  ∃ k, a_id acme = Some k ∧
       get_by_pk k (run (OpAccountSave (unsaved_account "Acme" None None) 100)
                        empty_store) =
         (inr acme,
          run (OpAccountSave (unsaved_account "Acme" None None) 100) empty_store).
Proof.
  destruct (Account_save_then_get (unsaved_account "Acme" None None) 100
              empty_store acme
              (run (OpAccountSave (unsaved_account "Acme" None None) 100)
                   empty_store))
    as (k & Hk & Hget & _); [vm_compute; reflexivity|].
  exists k. by split.
Defined.

(** X3: in every database the operations can lead to, no two accounts hold
    the same subdomain, nor the same domain, unless it is [None]; and
    [Account.save] under another key with the non-empty subdomain or domain
    of an existing account is refused, the database staying as it was. *)
Theorem subdomain_domain_unique :
  (∀ st, reachable st → accounts_unique st) ∧
  (∀ st i other self now s,
     accounts st !! i = Some other → a_id self ≠ Some i → s ≠ ""%string →
     subdomain self = Some s ∧ subdomain other = Some s ∨
     domain self = Some s ∧ domain other = Some s →
     Account_save self now st = (inl IntegrityError, st)).
Proof.
  split; [apply reachable_accounts_unique|].
  intros st i other self now s Hi Hkey Hs Hsame.
  destruct (Account_save_via_passes self now)
    as (self' & Hpass & Hid & _ & _ & _ & _ & Hsub & Hdom).
  unfold Account_save. rewrite Hpass.
  apply Model_save_refused. intros k add Hk. simpl.
  apply map_Exists_lookup. exists i, other. split; [done|]. split.
  - eapply (key_of_other_row (accounts st)); eauto. simpl in Hk. by rewrite <- Hid.
  - destruct Hsame as [[E1 E2]|[E1 E2]]; [left|right].
    + rewrite Hsub, E1, E2. rewrite decide_False by congruence. by split.
    + rewrite Hdom, E1, E2. rewrite decide_False by congruence. by split.
Qed.

Lemma subdomain_domain_unique_witness :
  accounts_unique acme_store ∧
  Account_save (unsaved_account "Acme again" None (Some "acme.example"%string))
               300
               (run (OpAccountSave
                       (unsaved_account "Acme" None (Some "acme.example"%string))
                       100) empty_store) =
    (inl IntegrityError,
     run (OpAccountSave
            (unsaved_account "Acme" None (Some "acme.example"%string)) 100)
         empty_store).
Proof.
  split.
  - apply (proj1 subdomain_domain_unique).
    apply run_all_reachable. constructor.
  - apply (proj2 subdomain_domain_unique _ 1
             (mkAccount (Some 1) (Some 100) (Some 100) "Acme" None
                        (Some "acme.example"%string) true)
             _ 300 "acme.example"%string).
    + vm_compute. reflexivity.
    + simpl. discriminate.
    + discriminate.
    + right. by split.
Defined.

(** X4: in no database the operations can lead to does an account row hold
    the empty string as its subdomain or as its domain. *)
Theorem no_blank_is_stored st : reachable st → no_blank st.
Proof. apply reachable_no_blank. Qed.

Lemma no_blank_is_stored_witness : no_blank acme_store.
Proof.
  apply (no_blank_is_stored acme_store).
  apply run_all_reachable. constructor.
Defined.



(** X6: a successful [Account.save] stamps [modified] with the time of the
    save, and saving the returned instance again always succeeds and updates
    its row in place: same key, same [created], [modified] at the new time,
    every other field and every other row as before. *)
Theorem Account_save_twice self t1 t2 st s1 st1 :
  Account_save self t1 st = (inr s1, st1) →
  a_modified s1 = Some t1 ∧
  ∃ k s2,
    a_id s1 = Some k ∧
    s2 = mkAccount (Some k) (a_created s1) (Some t2) (name s1) (subdomain s1)
                   (domain s1) (is_active s1) ∧
    Account_save s1 t2 st1 =
      (inr s2, set_accounts (<[k := s2]> (accounts st1)) st1) ∧
    dom (<[k := s2]> (accounts st1)) = dom (accounts st1).
Proof.
  intros Hsave.
  destruct (Account_save_via_passes self t1)
    as (self' & Hpass & _ & _ & _ & _ & _ & Hsub & Hdom).
  unfold Account_save in Hsave. rewrite Hpass in Hsave.
  destruct (Model_save_inv _ _ _ _ _ Hsave) as (k & add & _ & -> & Hv & ->).
  split; [done|].
  exists k. eexists. split; [done|]. split; [reflexivity|].
  assert (Hs : subdomain self' ≠ Some ""%string).
  { rewrite Hsub. by destruct (decide (subdomain self = Some ""%string)). }
  assert (Hd : domain self' ≠ Some ""%string).
  { rewrite Hdom. by destruct (decide (domain self = Some ""%string)). }
  split.
  - rewrite Account_save_no_blank by done.
    unfold Model_save. unfold_M. simpl.
    rewrite lookup_insert_eq.
    rewrite bool_decide_eq_false_2 by done. simpl.
    rewrite decide_False; [done|].
    intros (j & r & Hj & Hne & Hc)%map_Exists_lookup. apply Hv.
    apply map_Exists_lookup. exists j, r.
    simpl in Hj. rewrite lookup_insert_ne in Hj by done. done.
  - simpl. apply dom_insert_lookup_L. rewrite lookup_insert_eq. eauto.
Qed.

Lemma Account_save_twice_witness :
  a_modified acme = Some 100 ∧
  ∃ k s2,
    a_id acme = Some k ∧
    s2 = mkAccount (Some k) (a_created acme) (Some 200) (name acme)
                   (subdomain acme) (domain acme) (is_active acme) ∧
    Account_save acme 200
      (run (OpAccountSave (unsaved_account "Acme" None None) 100) empty_store) =
      (inr s2,
       set_accounts
         (<[k := s2]>
            (accounts (run (OpAccountSave (unsaved_account "Acme" None None) 100)
                           empty_store)))
         (run (OpAccountSave (unsaved_account "Acme" None None) 100)
              empty_store)) ∧
    dom (<[k := s2]>
           (accounts (run (OpAccountSave (unsaved_account "Acme" None None) 100)
                          empty_store))) =
      dom (accounts (run (OpAccountSave (unsaved_account "Acme" None None) 100)
                         empty_store)).
Proof.
  apply (Account_save_twice (unsaved_account "Acme" None None) 100 200
           empty_store).
  vm_compute. reflexivity.
Defined.

(** ** More on deleting *)

(** X7: in a database the operations can lead to, deleting a stored
    membership whose account has an owner record is decided by the keys
    alone: when the owner record and the membership are stored under the
    same key it raises [OwnershipRequired] and changes nothing; otherwise
    the membership is deleted, together with any owner record that
    designates it. *)
Theorem AccountUser_delete_stored st i m j o :
  reachable st →
  account_users st !! i = Some m →
  account_owners st !! j = Some o → ao_account_id o = au_account_id m →
  AccountUser_delete m st =
    if decide (j = i)
    then (inl (OwnershipRequired
                 "Cannot delete account owner beforeaccount or transferring ownership"),
          st)
    else (inr tt, AccountUser_collect i st).
Proof.
  intros Hst Hi Hj Hacc.
  destruct (reachable_schema_ok st Hst) as (_ & Hone & _).
  destruct (reachable_keys_ok st Hst) as (_ & _ & Hkey & _).
  destruct (reachable_refs_ok st Hst j o Hj) as [Ha _]. rewrite Hacc in Ha.
  pose proof (Hkey i m Hi) as Hid.
  unfold AccountUser_delete.
  rewrite (AccountUser_delete_via_owned Model_delete m st j o Ha Hj Hacc Hone).
  rewrite Hid.
  destruct (decide (j = i)) as [->|Hne].
  - by rewrite decide_True.
  - rewrite decide_False by congruence.
    unfold Model_delete. simpl. by rewrite Hid.
Qed.

Lemma AccountUser_delete_stored_witness :
  AccountUser_delete jane_membership acme_store =
    (inl (OwnershipRequired
            "Cannot delete account owner beforeaccount or transferring ownership"),
     acme_store) ∧
  AccountUser_delete john_membership acme_store =
    (inr tt, AccountUser_collect 2 acme_store).
Proof.
  split.
  - apply (AccountUser_delete_stored acme_store 1 jane_membership 1 acme_owner).
    + apply run_all_reachable. constructor.
    + vm_compute. reflexivity.
    + vm_compute. reflexivity.
    + reflexivity.
  - apply (AccountUser_delete_stored acme_store 2 john_membership 1 acme_owner).
    + apply run_all_reachable. constructor.
    + vm_compute. reflexivity.
    + vm_compute. reflexivity.
    + reflexivity.
Defined.

(** X8: when [AccountUser.delete] succeeds, the membership had a key, its
    row is gone and so is every owner record that designated it; every other
    membership, every owner record of another membership, and all users and
    accounts are as before. *)
Theorem AccountUser_delete_success self st st' :
  AccountUser_delete self st = (inr tt, st') →
  ∃ i, au_id self = Some i ∧
    account_users st' !! i = None ∧
    (∀ k, k ≠ i → account_users st' !! k = account_users st !! k) ∧
    (∀ j o, account_owners st' !! j = Some o → ao_account_user_id o ≠ i) ∧
    (∀ j o, account_owners st !! j = Some o → ao_account_user_id o ≠ i →
            account_owners st' !! j = Some o) ∧
    users st' = users st ∧ accounts st' = accounts st.
Proof.
  intros Hdel. unfold AccountUser_delete in Hdel.
  destruct (AccountUser_delete_via_cases Model_delete self st) as [[e He]|He];
    rewrite He in Hdel; [discriminate|].
  destruct (Model_delete_cases self st) as [Herr|(i & Hi & Hok)];
    rewrite ?Herr, ?Hok in Hdel; [discriminate|].
  injection Hdel as <-. exists i. split; [done|]. simpl.
  split; [apply lookup_delete_eq|].
  split; [intros k Hk; by apply lookup_delete_ne|].
  split; [|split; [|done]].
  - intros j o [_ Hp]%map_lookup_filter_Some. exact Hp.
  - intros j o Hj Hp. by apply map_lookup_filter_Some.
Qed.

Lemma AccountUser_delete_success_witness :
  ∃ i, au_id john_membership = Some i ∧
    account_users (AccountUser_collect 2 acme_store) !! i = None.
Proof.
  destruct (AccountUser_delete_success john_membership acme_store
              (AccountUser_collect 2 acme_store))
    as (i & Hi & Hgone & _); [vm_compute; reflexivity|].
  exists i. by split.
Defined.

(** [AccountUser.delete], step by step as far as the owner lookup. *)
Lemma AccountUser_delete_via_eq super_delete self st :
  AccountUser_delete_via super_delete self st =
    match accounts st !! au_account_id self with
    | None => (inl (DoesNotExist MAccount), st)
    | Some _ =>
        match (objects_get
                 (λ r : AccountOwner,
                    Some (ao_account_id r) = Some (au_account_id self)) st).1 with
        | inl e => (inl e, st)
        | inr owner =>
            if decide (ao_id owner = au_id self)
            then (inl (OwnershipRequired
                         "Cannot delete account owner beforeaccount or transferring ownership"),
                  st)
            else super_delete self st
        end
    end.
Proof.
  unfold AccountUser_delete_via, AccountUser_account, Account_owner.
  unfold mbind, M_bind, bind.
  destruct (accounts st !! au_account_id self) as [a|] eqn:Ha.
  - rewrite (get_by_pk_Some (H:=Account_Model) _ a st Ha). simpl.
    pose proof (objects_get_store
                  (λ r : AccountOwner,
                     Some (ao_account_id r) = Some (au_account_id self)) st) as Hs.
    destruct (objects_get _ st) as [[e|owner] st1]; simpl in Hs; subst st1;
      simpl; [done|]. by destruct (decide (ao_id owner = au_id self)).
  - by rewrite (get_by_pk_None (H:=Account_Model) _ st Ha).
Qed.



(** X13: deleting a membership whose account is not in the database raises
    [Account.DoesNotExist] at the guard, and reading [full_name] of a
    membership whose user is not in the database raises
    [User.DoesNotExist]; neither changes the database, and the inherited
    [delete] is not reached. *)
Theorem AccountUser_missing_rows self st :
  (accounts st !! au_account_id self = None →
   ∀ super_delete,
     AccountUser_delete_via super_delete self st =
       (inl (DoesNotExist MAccount), st)) ∧
  (users st !! au_user_id self = None →
   property_get full_name self st = (inl (DoesNotExist MUser), st)).
Proof.
  split.
  - intros Ha super_delete. rewrite AccountUser_delete_via_eq. by rewrite Ha.
  - intros Hu. unfold property_get, full_name, AccountUser_user. simpl.
    unfold mbind, M_bind, bind.
    by rewrite (get_by_pk_None (H:=User_Model) _ st Hu).
Qed.

Lemma AccountUser_missing_rows_witness :
  AccountUser_delete (unsaved_membership 7 9) acme_store =
    (inl (DoesNotExist MAccount), acme_store) ∧
  property_get full_name (unsaved_membership 7 9) acme_store =
    (inl (DoesNotExist MUser), acme_store).
Proof.
  split.
  - apply (proj1 (AccountUser_missing_rows (unsaved_membership 7 9) acme_store)).
    vm_compute. reflexivity.
  - apply (proj2 (AccountUser_missing_rows (unsaved_membership 7 9) acme_store)).
    vm_compute. reflexivity.
Defined.

(** X14: [delete] on a membership that was never saved deletes nothing and
    never raises [OwnershipRequired]: it fails at one of the lookups of the
    guard or, past the guard, at the inherited [delete], which refuses an
    instance without a key. *)
Theorem AccountUser_delete_unsaved self st :
  au_id self = None →
  ∃ e, AccountUser_delete self st = (inl e, st) ∧
       (e = DoesNotExist MAccount ∨ e = DoesNotExist MAccountOwner ∨
        e = MultipleObjectsReturned MAccountOwner ∨ e = AssertionError).
Proof.
  intros Hid. unfold AccountUser_delete. rewrite AccountUser_delete_via_eq.
  destruct (accounts st !! au_account_id self) as [a|]; [|eauto].
  unfold objects_get. unfold_M. simpl.
  destruct (map_to_list _) as [|[k r] [|]]; simpl; [eauto 6| |eauto 6].
  rewrite Hid. rewrite decide_False by discriminate.
  unfold Model_delete. simpl. rewrite Hid. eauto 6.
Qed.

Lemma AccountUser_delete_unsaved_witness :
  ∃ e, AccountUser_delete (unsaved_membership 1 1) acme_store =
         (inl e, acme_store) ∧
       (e = DoesNotExist MAccount ∨ e = DoesNotExist MAccountOwner ∨
        e = MultipleObjectsReturned MAccountOwner ∨ e = AssertionError).
Proof.
  apply (AccountUser_delete_unsaved (unsaved_membership 1 1) acme_store).
  reflexivity.
Defined.

(** ** More on owner records *)

(** X10: when [AccountOwner.save] succeeds, the owner record is stored under
    the key of the returned instance, with the account and the membership it
    was given; that membership is a row of the database and belongs to that
    account; and no other owner record has this account or this
    membership. Users, accounts and memberships are untouched. *)
Theorem AccountOwner_save_success self now st saved st' :
  AccountOwner_save self now st = (inr saved, st') →
  ∃ j m,
    ao_id saved = Some j ∧ account_owners st' !! j = Some saved ∧
    ao_account_id saved = ao_account_id self ∧
    ao_account_user_id saved = ao_account_user_id self ∧
    account_users st' !! ao_account_user_id saved = Some m ∧
    au_account_id m = ao_account_id saved ∧
    is_Some (accounts st' !! ao_account_id saved) ∧
    (∀ j' o', account_owners st' !! j' = Some o' → j' ≠ j →
              ao_account_id o' ≠ ao_account_id saved ∧
              ao_account_user_id o' ≠ ao_account_user_id saved) ∧
    users st' = users st ∧ accounts st' = accounts st ∧
    account_users st' = account_users st.
Proof.
  unfold AccountOwner_save. rewrite AccountOwner_save_via_eq. intros Hsave.
  destruct (account_users st !! ao_account_user_id self) as [m|] eqn:Hm;
    [|discriminate].
  destruct (accounts st !! au_account_id m) as [a1|] eqn:Ha1; [|discriminate].
  destruct (accounts st !! ao_account_id self) as [a2|] eqn:Ha2; [|discriminate].
  destruct (decide (au_account_id m = ao_account_id self)) as [Heq|];
    [|discriminate].
  destruct (Model_save_inv _ _ _ _ _ Hsave) as (j & add & _ & -> & Hv & ->).
  exists j, m. simpl. rewrite lookup_insert_eq, Hm, Ha2.
  do 6 (split; [done|]). split; [eauto|]. split; [|done].
  intros j' o' Hj' Hne. rewrite lookup_insert_ne in Hj' by done.
  split; intros E; apply Hv; apply map_Exists_lookup;
    exists j', o'; simpl; auto.
Qed.

Lemma AccountOwner_save_success_witness :
  ∃ j m,
    ao_id acme_owner = Some j ∧ account_owners acme_store !! j = Some acme_owner ∧
    account_users acme_store !! ao_account_user_id acme_owner = Some m ∧
    au_account_id m = ao_account_id acme_owner.
Proof.
  destruct (AccountOwner_save_success (unsaved_owner 1 2) 105
              acme_members_store acme_owner acme_store)
    as (j & m & Hj & Hrow & _ & _ & Hm & Hacc & _); [vm_compute; reflexivity|].
  exists j, m. split; [exact Hj|]. split; [exact Hrow|]. split; [exact Hm|].
  exact Hacc.
Defined.

(** X11: that agreement is checked when the owner record is saved and at no
    other time. Saving a membership, which [AccountUser] leaves to the
    inherited [save], can move it to another account while an owner record
    designates it; so the agreement is not an invariant of the databases the
    operations can lead to. *)
Theorem owner_agreement_not_invariant :
  ¬ (∀ st, reachable st → owner_consistent st).
Proof.
  intros Hall.
  assert (Hst : reachable moved_membership_store)
    by (apply run_all_reachable; constructor).
  specialize (Hall _ Hst 1 acme_owner
                (mkAccountUser (Some 2) (Some 104) (Some 107) 2 2 false)).
  assert (Hbad : (2 : Z) = 1); [|discriminate].
  apply Hall; vm_compute; reflexivity.
Qed.

(** X12: [AccountOwner.save] reads the membership first, then the account of
    the membership, then its own account; the first of these that is not in
    the database decides the exception, the inherited [save] is not reached
    and the database stays as it was. *)
Theorem AccountOwner_save_missing_rows super_save self now st :
  (account_users st !! ao_account_user_id self = None →
   AccountOwner_save_via super_save self now st =
     (inl (DoesNotExist MAccountUser), st)) ∧
  (∀ m, account_users st !! ao_account_user_id self = Some m →
        accounts st !! au_account_id m = None →
        AccountOwner_save_via super_save self now st =
          (inl (DoesNotExist MAccount), st)) ∧
  (∀ m, account_users st !! ao_account_user_id self = Some m →
        accounts st !! ao_account_id self = None →
        AccountOwner_save_via super_save self now st =
          (inl (DoesNotExist MAccount), st)).
Proof.
  rewrite AccountOwner_save_via_eq. repeat split.
  - by intros ->.
  - intros m -> Ha. by rewrite Ha.
  - intros m -> Ha. rewrite Ha. by destruct (accounts st !! au_account_id m).
Qed.

Lemma AccountOwner_save_missing_rows_witness :
  AccountOwner_save (unsaved_owner 1 9) 200 acme_store =
    (inl (DoesNotExist MAccountUser), acme_store) ∧
  AccountOwner_save (unsaved_owner 9 1) 200 acme_store =
    (inl (DoesNotExist MAccount), acme_store).
Proof.
  split.
  - apply (proj1 (AccountOwner_save_missing_rows Model_save (unsaved_owner 1 9)
                    200 acme_store)).
    vm_compute. reflexivity.
  - apply (proj2 (proj2 (AccountOwner_save_missing_rows Model_save
                           (unsaved_owner 9 1) 200 acme_store))
                 jane_membership).
    + vm_compute. reflexivity.
    + vm_compute. reflexivity.
Defined.

(** X15: ownership can be handed over by saving the stored owner record with
    another membership of the same account, as long as no other owner record
    designates that membership: in a database the operations can lead to the
    save succeeds, the owner record keeps its key and its [created], and no
    owner record is added. *)
Theorem AccountOwner_save_transfer st j o m' au now :
  reachable st →
  account_owners st !! j = Some o →
  account_users st !! m' = Some au → au_account_id au = ao_account_id o →
  (∀ j' o', account_owners st !! j' = Some o' →
            ao_account_user_id o' = m' → j' = j) →
  let saved := mkAccountOwner (Some j) (ao_created o) (Some now)
                              (ao_account_id o) m' in
  AccountOwner_save
    (mkAccountOwner (Some j) (ao_created o) (ao_modified o) (ao_account_id o) m')
    now st =
    (inr saved, set_account_owners (<[j := saved]> (account_owners st)) st) ∧
  dom (<[j := saved]> (account_owners st)) = dom (account_owners st).
Proof.
  intros Hst Hj Hm Hacc Hfree saved.
  destruct (reachable_schema_ok st Hst) as (_ & Hone & _).
  destruct (reachable_refs_ok st Hst j o Hj) as [[a Ha] _].
  split; [|apply dom_insert_lookup_L; eauto].
  unfold AccountOwner_save. rewrite AccountOwner_save_via_eq. simpl.
  rewrite Hm, Hacc, Ha. rewrite decide_True by done.
  unfold Model_save. unfold_M. simpl.
  rewrite Hj. rewrite bool_decide_eq_false_2 by done. simpl.
  rewrite decide_False; [done|].
  intros (j' & o' & Hj' & Hne & Hsame)%map_Exists_lookup; simpl in *.
  destruct Hsame as [E|E]; apply Hne.
  - by eapply Hone.
  - by eapply Hfree.
Qed.

Lemma AccountOwner_save_transfer_witness :
  AccountOwner_save (mkAccountOwner (Some 1) (Some 105) (Some 105) 1 1) 200
                    acme_store =
    (inr (mkAccountOwner (Some 1) (Some 105) (Some 200) 1 1),
     set_account_owners
       (<[1 := mkAccountOwner (Some 1) (Some 105) (Some 200) 1 1]>
          (account_owners acme_store))
       acme_store).
Proof.
  apply (AccountOwner_save_transfer acme_store 1 acme_owner 1 jane_membership 200).
  - apply run_all_reachable. constructor.
  - vm_compute. reflexivity.
  - vm_compute. reflexivity.
  - reflexivity.
  - intros j' o' Hj' Hm.
    destruct (decide (j' = 1)) as [->|Hne]; [reflexivity|exfalso].
    assert (He : account_owners acme_store = {[1 := acme_owner]})
      by (vm_compute; reflexivity).
    rewrite He, lookup_singleton_ne in Hj' by done. discriminate.
Defined.

(** ** Display names and URLs *)

(** X16: in a database the operations can lead to, the account and the
    membership of a stored owner record are always found when its display
    name is made. The name is the name of the account, a colon and a space,
    and the display name of the user of the membership; when that user is
    not in the database, [User.DoesNotExist] is raised. *)
Theorem AccountOwner_unicode_stored (User_unicode : User → string) st j o :
  reachable st →
  account_owners st !! j = Some o →
  ∃ a m,
    accounts st !! ao_account_id o = Some a ∧
    account_users st !! ao_account_user_id o = Some m ∧
    AccountOwner_unicode User_unicode o st =
      match users st !! au_user_id m with
      | Some u => (inr (name a +:+ ": " +:+ User_unicode u), st)
      | None => (inl (DoesNotExist MUser), st)
      end.
Proof.
  intros Hst Hj.
  destruct (reachable_keys_ok st Hst) as (Hku & _).
  destruct (reachable_refs_ok st Hst j o Hj) as [[a Ha] [m Hm]].
  exists a, m. do 2 (split; [done|]).
  unfold AccountOwner_unicode, AccountUser_unicode, Account_unicode,
    AccountOwner_account, AccountOwner_account_user, AccountUser_user.
  unfold mbind, M_bind, bind.
  rewrite (get_by_pk_Some (H:=Account_Model) _ a st Ha).
  rewrite (get_by_pk_Some (H:=AccountUser_Model) _ m st Hm). simpl.
  destruct (users st !! au_user_id m) as [u|] eqn:Hu.
  - rewrite (get_by_pk_Some (H:=User_Model) _ u st Hu). simpl.
    pose proof (Hku _ u Hu) as Hid. destruct u as [uid fn ln]. simpl in *.
    by rewrite Hid.
  - by rewrite (get_by_pk_None (H:=User_Model) _ st Hu).
Qed.

Lemma AccountOwner_unicode_stored_witness :
  ∃ a m,
    accounts acme_store !! ao_account_id acme_owner = Some a ∧
    account_users acme_store !! ao_account_user_id acme_owner = Some m ∧
    AccountOwner_unicode first_name acme_owner acme_store =
      match users acme_store !! au_user_id m with
      | Some u => (inr (name a +:+ ": " +:+ first_name u), acme_store)
      | None => (inl (DoesNotExist MUser), acme_store)
      end.
Proof.
  apply (AccountOwner_unicode_stored first_name acme_store 1 acme_owner).
  - apply run_all_reachable. constructor.
  - vm_compute. reflexivity.
Defined.

(** X17: [AccountUser.get_absolute_url] loads the account of the membership
    to read its key. When the account is not in the database it raises
    [Account.DoesNotExist] and [reverse] is not called; when it is, the path
    is what [reverse] makes of the view [accountuser_detail] with the key of
    the account and the key of the membership. [Account.get_absolute_url]
    reads nothing from the database. *)
Theorem get_absolute_url_spec
    (reverse : string → list Z → gmap string (option Z) → M string) st :
  (∀ self, accounts st !! au_account_id self = None →
     AccountUser_get_absolute_url reverse self st =
       (inl (DoesNotExist MAccount), st)) ∧
  (∀ self, is_Some (accounts st !! au_account_id self) →
     AccountUser_get_absolute_url reverse self st =
       reverse "accountuser_detail"%string []
         (<[ "account_pk"%string := Some (au_account_id self) ]>
            {[ "accountuser_pk"%string := au_id self ]}) st) ∧
  (∀ self : Account,
     Account_get_absolute_url reverse self st =
       reverse "account_detail"%string []
         {[ "account_pk"%string := a_id self ]} st).
Proof.
  split; [|split; [|done]].
  - intros self Ha.
    unfold AccountUser_get_absolute_url, permalink, AccountUser_account.
    unfold mbind, M_bind, bind.
    by rewrite (get_by_pk_None (H:=Account_Model) _ st Ha).
  - intros self [a Ha].
    unfold AccountUser_get_absolute_url, permalink, AccountUser_account.
    unfold mbind, M_bind, bind.
    by rewrite (get_by_pk_Some (H:=Account_Model) _ a st Ha).
Qed.

Lemma get_absolute_url_spec_witness :
  AccountUser_get_absolute_url
    (λ (view : string) (_ : list Z) (_ : gmap string (option Z)), ret view)
    john_membership acme_store =
    (inr "accountuser_detail"%string, acme_store) ∧
  AccountUser_get_absolute_url
    (λ (view : string) (_ : list Z) (_ : gmap string (option Z)), ret view)
    (unsaved_membership 7 9) acme_store =
    (inl (DoesNotExist MAccount), acme_store).
Proof.
  split.
  - apply (proj1 (proj2 (get_absolute_url_spec
                           (λ (view : string) (_ : list Z)
                              (_ : gmap string (option Z)), ret view)
                           acme_store))
                 john_membership).
    vm_compute. eauto.
  - apply (proj1 (get_absolute_url_spec
                    (λ (view : string) (_ : list Z)
                       (_ : gmap string (option Z)), ret view)
                    acme_store)
                 (unsaved_membership 7 9)).
    vm_compute. reflexivity.
Defined.
